(** * Flight-delay report generator: streaming aggregation core

    A shallow embedding of [analysis/generate_flight_delay_report.py]
    (column resolution, chunk normalisation, additive merge, metric
    enrichment) together with the properties of its specification.

    Conventions of the embedding:
    - Python [float] and NumPy [float64] are IEEE-754 binary64, taken from
      the Standard Library's executable specification [SpecFloat] with
      [prec = 53] and [emax = 1024] (no NaN payloads: one NaN).
    - Python [int] and the [int64] counters are [Z]; the counters of a run
      stay far below 2^63, so wrap-around is not modelled.
    - A Python [dict] with string keys is a [gmap string _]; a raised
      exception is the [Raise] branch of [result].
    - A pandas [DataFrame] is a list of column names and a list of rows,
      each row a finite map from column name to scalar [Value]. *)

From Stdlib Require Import ZArith Lia Permutation Ascii String.
From Stdlib Require Import Floats.SpecFloat.
From stdpp Require Import base option gmap strings list fin_maps sorting.

Open Scope string_scope.
Open Scope Z_scope.

(* ===================================================================== *)
(** * Part I: the model                                                   *)
(* ===================================================================== *)

(** ** binary64 arithmetic *)

Module F64.

Definition prec : Z := 53.
Definition emax : Z := 1024.

Definition add : spec_float → spec_float → spec_float := SFadd prec emax.
Definition sub : spec_float → spec_float → spec_float := SFsub prec emax.
Definition div : spec_float → spec_float → spec_float := SFdiv prec emax.

(** [x > y] of Python / NumPy: false as soon as one side is NaN. *)
Definition gt (x y : spec_float) : bool := SFltb y x.

(** [float(n)] for an integer [n], rounded to nearest even. *)
Definition of_Z (n : Z) : spec_float := binary_normalize prec emax n 0 false.

Definition nan : spec_float := S754_nan.
Definition zero : spec_float := S754_zero false.
Definition one : spec_float := of_Z 1.

Definition is_nan (x : spec_float) : bool :=
  match x with S754_nan => true | _ => false end.

Definition is_zero (x : spec_float) : bool :=
  match x with S754_zero _ => true | _ => false end.


(** Truncation toward zero of a finite value ([int(x)], [astype("int64")]);
    [None] on NaN and the infinities, where both raise. *)
Definition trunc (x : spec_float) : option Z :=
  match x with
  | S754_zero _ => Some 0
  | S754_finite s m e =>
      let a := match e with
               | Zneg p => Z.shiftr (Zpos m) (Zpos p)
               | _ => Z.shiftl (Zpos m) e
               end in
      Some (if s then - a else a)
  | _ => None
  end.

(** The decimal literal [n / 10^k], correctly rounded when [n] and [10^k]
    are below 2^53 (e.g. [dec 1501 2] is the double written [15.01]). *)
Definition dec (n : Z) (k : Z) : spec_float := div (of_Z n) (of_Z (10 ^ k)).



End F64.

Abbreviation float := spec_float.

#[global] Instance float_eq_dec : EqDecision float.
Proof. solve_decision. Defined.

(** ** Exceptions *)

Inductive exn := KeyError | ValueError | TypeError | OverflowError.

Inductive result (A : Type) :=
| Ok (a : A)
| Raise (e : exn).
Arguments Ok {A} a.
Arguments Raise {A} e.

#[global] Instance result_ret : MRet result := λ A a, Ok a.
#[global] Instance result_bind : MBind result :=
  λ A B k m, match m with Ok a => k a | Raise e => Raise e end.
#[global] Instance result_fmap : FMap result :=
  λ A B f m, match m with Ok a => Ok (f a) | Raise e => Raise e end.

(** A [for] loop whose body may raise. *)
Fixpoint for_each {A S : Type} (body : S → A → result S) (xs : list A) (s : S)
  : result S :=
  match xs with
  | [] => Ok s
  | x :: rest => s' ← body s x; for_each body rest s'
  end.

(** [d[k]] on a dict: [KeyError] when the key is absent. *)
Definition getitem {V : Type} (d : gmap string V) (k : string) : result V :=
  match d !! k with
  | Some v => Ok v
  | None => Raise KeyError
  end.

(** ** Scalar values *)

(** A parsed date ([datetime64]); the time of day plays no part here. *)
Record Timestamp := MkTimestamp { ts_year : Z; ts_month : Z; ts_day : Z }.

(** What a cell of a [DataFrame] can hold. *)
Inductive Value :=
| VNull                      (* None, NaT *)
| VBool (b : bool)
| VInt (n : Z)
| VFloat (x : float)         (* float64, NaN included *)
| VStr (s : string)
| VTime (t : Timestamp)
| VPeriod (y m : Z).         (* a calendar month, [Period(freq="M")] *)

(** A Python number: the values of a Metric Record and of an aggregate. *)
Inductive Num :=
| NInt (n : Z)
| NFloat (x : float).

#[global] Instance Timestamp_eq_dec : EqDecision Timestamp.
Proof. solve_decision. Defined.
#[global] Instance Value_eq_dec : EqDecision Value.
Proof. solve_decision. Defined.
#[global] Instance Num_eq_dec : EqDecision Num.
Proof. solve_decision. Defined.

#[global] Instance float_countable : Countable float.
Proof.
  refine (inj_countable'
    (λ x, match x with
          | S754_zero s => inl (inl s)
          | S754_infinity s => inl (inr s)
          | S754_nan => inr (inl ())
          | S754_finite s m e => inr (inr (s, m, e))
          end)
    (λ c, match c with
          | inl (inl s) => S754_zero s
          | inl (inr s) => S754_infinity s
          | inr (inl _) => S754_nan
          | inr (inr (s, m, e)) => S754_finite s m e
          end) _).
  by intros [].
Defined.

#[global] Instance Value_countable : Countable Value.
Proof.
  refine (inj_countable'
    (λ v, match v with
          | VNull => inl (inl ())
          | VBool b => inl (inr b)
          | VInt n => inr (inl (inl n))
          | VFloat x => inr (inl (inr x))
          | VStr s => inr (inr (inl s))
          | VTime t => inr (inr (inr (inl (ts_year t, ts_month t, ts_day t))))
          | VPeriod y m => inr (inr (inr (inr (y, m))))
          end)
    (λ c, match c with
          | inl (inl _) => VNull
          | inl (inr b) => VBool b
          | inr (inl (inl n)) => VInt n
          | inr (inl (inr x)) => VFloat x
          | inr (inr (inl s)) => VStr s
          | inr (inr (inr (inl (y, m, d)))) => VTime (MkTimestamp y m d)
          | inr (inr (inr (inr (y, m)))) => VPeriod y m
          end) _).
  by intros [| | | | |[]|].
Defined.

(** [pd.isna] *)
Definition isna (v : Value) : bool :=
  match v with
  | VNull => true
  | VFloat x => F64.is_nan x
  | _ => false
  end.

Definition num_isna (v : Num) : bool :=
  match v with
  | NFloat x => F64.is_nan x
  | NInt _ => false
  end.

(** [float(v)] *)
Definition py_float (v : Num) : float :=
  match v with
  | NInt n => F64.of_Z n
  | NFloat x => x
  end.

(** [int(v)]: [ValueError] on NaN, [OverflowError] on an infinity. *)
Definition py_int (v : Num) : result Z :=
  match v with
  | NInt n => Ok n
  | NFloat x =>
      match F64.trunc x with
      | Some n => Ok n
      | None => Raise (if F64.is_nan x then ValueError else OverflowError)
      end
  end.

(** [a + b] on Python numbers: integer addition on two ints, binary64
    addition as soon as one side is a float. *)
Definition py_add (a b : Num) : Num :=
  match a, b with
  | NInt x, NInt y => NInt (x + y)
  | _, _ => NFloat (F64.add (py_float a) (py_float b))
  end.

Definition num_value (v : Num) : Value :=
  match v with
  | NInt n => VInt n
  | NFloat x => VFloat x
  end.

(** ** Static configuration *)

Definition DELAY_CAUSE_COLUMNS : list (string * string) :=
  [ ("CARRIER_DELAY", "carrier_delay_sum");
    ("WEATHER_DELAY", "weather_delay_sum");
    ("NAS_DELAY", "nas_delay_sum");
    ("SECURITY_DELAY", "security_delay_sum");
    ("LATE_AIRCRAFT_DELAY", "late_aircraft_delay_sum") ].

Definition COLUMN_ALIASES : gmap string (list string) :=
  list_to_map
  [ ("FL_DATE", ["FL_DATE"; "FlightDate"]);
    ("OP_CARRIER",
       ["OP_CARRIER"; "IATA_Code_Marketing_Airline"; "Marketing_Airline_Network";
        "IATA_Code_Operating_Airline"; "Operating_Airline"; "Operating_Airline "]);
    ("OP_UNIQUE_CARRIER",
       ["OP_UNIQUE_CARRIER"; "DOT_ID_Marketing_Airline"; "DOT_ID_Operating_Airline"]);
    ("ORIGIN", ["ORIGIN"; "Origin"]);
    ("DEST", ["DEST"; "Dest"]);
    ("ARR_DELAY", ["ARR_DELAY"; "ArrDelay"; "ArrDelayMinutes"]);
    ("DEP_DELAY", ["DEP_DELAY"; "DepDelay"; "DepDelayMinutes"]);
    ("CANCELLED", ["CANCELLED"; "Cancelled"]);
    ("DIVERTED", ["DIVERTED"; "Diverted"]);
    ("CARRIER_DELAY", ["CARRIER_DELAY"; "CarrierDelay"]);
    ("WEATHER_DELAY", ["WEATHER_DELAY"; "WeatherDelay"]);
    ("NAS_DELAY", ["NAS_DELAY"; "NASDelay"]);
    ("SECURITY_DELAY", ["SECURITY_DELAY"; "SecurityDelay"]);
    ("LATE_AIRCRAFT_DELAY", ["LATE_AIRCRAFT_DELAY"; "LateAircraftDelay"]) ].

Definition BASE_METRIC_FIELDS : list string :=
  [ "flights"; "arr_delay_sum"; "arr_delay_count"; "arr_delay_over_15";
    "dep_delay_sum"; "dep_delay_count"; "dep_delay_over_15";
    "cancelled"; "diverted" ].

Definition METRIC_FIELDS : list string :=
  BASE_METRIC_FIELDS ++ map snd DELAY_CAUSE_COLUMNS.

Definition COUNT_FIELDS : gset string :=
  list_to_set
  [ "flights"; "arr_delay_count"; "arr_delay_over_15";
    "dep_delay_count"; "dep_delay_over_15"; "cancelled"; "diverted" ].

Definition SUM_FIELDS : gset string :=
  list_to_set METRIC_FIELDS ∖ COUNT_FIELDS.

Definition DESIRED_COLUMNS : list string :=
  [ "FL_DATE"; "OP_CARRIER"; "OP_UNIQUE_CARRIER"; "ORIGIN"; "DEST";
    "ARR_DELAY"; "DEP_DELAY"; "CANCELLED"; "DIVERTED" ]
  ++ map fst DELAY_CAUSE_COLUMNS.

(** ** Column Resolver *)

(** The inner loop of [determine_available_columns]: the first alias, in
    the declared order, that is a column of the header. *)
Fixpoint first_alias (columns : list string) (aliases : list string)
  : option string :=
  match aliases with
  | [] => None
  | alias :: rest =>
      if bool_decide (alias ∈ columns) then Some alias
      else first_alias columns rest
  end.

Definition resolve_column (columns : list string)
    (column_map : gmap string string) (canonical : string)
  : gmap string string :=
  let aliases := default [canonical] (COLUMN_ALIASES !! canonical) in
  match first_alias columns aliases with
  | Some alias => <[canonical := alias]> column_map
  | None => column_map
  end.

Definition str_le (a b : string) : Prop := String.leb a b = true.

#[global] Instance str_le_dec : RelDecision str_le.
Proof. intros a b. unfold str_le. apply _. Defined.

(** [columns] is the header row of the file, [list(header.columns)]. The
    result is [(usecols, column_map)]. *)
Definition determine_available_columns (columns : list string)
  : result (list string * gmap string string) :=
  let column_map := foldl (resolve_column columns) ∅ DESIRED_COLUMNS in
  if bool_decide ("FL_DATE" ∈ dom column_map) then
    let usecols :=
      merge_sort str_le (remove_dups (map snd (map_to_list column_map))) in
    Ok (usecols, column_map)
  else Raise ValueError.

(** ** The pandas parsers the pipeline calls *)

(** [pd.to_datetime(_, errors="coerce")] and [pd.to_numeric(_,
    errors="coerce")] belong to pandas, not to this repository. The model
    takes what they do to one cell as given: the date a cell parses to
    ([None] is NaT) and the number a text cell parses to ([None] is NaN
    after coercion). *)
Class Pandas := {
  parse_datetime : Value → option Timestamp;
  parse_float : string → option float
}.

(** ** Strings *)

Definition is_space (c : ascii) : bool :=
  let n := nat_of_ascii c in
  ((9 <=? n) && (n <=? 13) || (28 <=? n) && (n <=? 32))%nat.

Fixpoint lstrip (s : list ascii) : list ascii :=
  match s with
  | c :: rest => if is_space c then lstrip rest else s
  | [] => []
  end.

(** [str.strip()] *)
Definition strip (s : string) : string :=
  string_of_list_ascii
    (reverse (lstrip (reverse (lstrip (list_ascii_of_string s))))).

Definition upper_ascii (c : ascii) : ascii :=
  let n := nat_of_ascii c in
  if ((97 <=? n) && (n <=? 122))%nat then ascii_of_nat (n - 32) else c.

(** [str.upper()] on ASCII text *)
Fixpoint upper (s : string) : string :=
  match s with
  | EmptyString => EmptyString
  | String c rest => String (upper_ascii c) (upper rest)
  end.

(** ** DataFrames *)

Record DataFrame := MkDataFrame {
  df_columns : list string;
  df_rows : list (gmap string Value)
}.

(** [df.empty] *)
Definition df_empty (df : DataFrame) : bool :=
  match df_columns df, df_rows df with
  | _ :: _, _ :: _ => false
  | _, _ => true
  end.

(** [name in df.columns] *)
Definition has_col (df : DataFrame) (name : string) : bool :=
  bool_decide (name ∈ df_columns df).

Definition cell (name : string) (row : gmap string Value) : Value :=
  default VNull (row !! name).

(** [df[name]] *)
Definition get_col (df : DataFrame) (name : string) : result (list Value) :=
  if has_col df name then Ok (cell name <$> df_rows df) else Raise KeyError.

(** [df[name] = series], the series aligned row by row *)
Definition set_col (df : DataFrame) (name : string) (series : list Value)
  : DataFrame :=
  {| df_columns :=
       if has_col df name then df_columns df else df_columns df ++ [name];
     df_rows := zip_with (λ row v, <[name := v]> row) (df_rows df) series |}.

(** [df.dropna(subset=[name])] *)
Definition dropna (df : DataFrame) (name : string) : DataFrame :=
  {| df_columns := df_columns df;
     df_rows := filter (λ row, isna (cell name row) = false) (df_rows df) |}.

Fixpoint map_result {A B : Type} (f : A → result B) (xs : list A)
  : result (list B) :=
  match xs with
  | [] => Ok []
  | x :: rest => y ← f x; ys ← map_result f rest; Ok (y :: ys)
  end.

(** ** Chunk Normalizer *)

Section Normalizer.
Context `{Pandas}.

(** One cell of [pd.to_datetime(series, errors="coerce")] *)
Definition to_datetime (v : Value) : Value :=
  match parse_datetime v with
  | Some t => VTime t
  | None => VNull
  end.

(** One cell of [series.dt.to_period("M")] *)
Definition to_period_M (v : Value) : Value :=
  match v with
  | VTime t => VPeriod (ts_year t) (ts_month t)
  | _ => VNull
  end.

(** One cell of [pd.to_numeric(series, errors="coerce")], as float64.
    Dates never occur in the numeric columns. *)
Definition to_numeric (v : Value) : float :=
  match v with
  | VFloat x => x
  | VInt n => F64.of_Z n
  | VBool b => F64.of_Z (Z.b2z b)
  | VStr s => default F64.nan (parse_float s)
  | VNull | VTime _ | VPeriod _ _ => F64.nan
  end.

(** One cell of [(series > 15).astype("int64")] *)
Definition over_15 (x : float) : Value :=
  VInt (Z.b2z (F64.gt x (F64.of_Z 15))).

(** One cell of [series.fillna(c)] on a float64 series *)
Definition fillna (c x : float) : float :=
  if F64.is_nan x then c else x.

(** One cell of [series.astype("int64")] on a float64 series; pandas
    refuses the non-finite values. *)
Definition astype_int64 (x : float) : result Value :=
  match F64.trunc x with
  | Some n => Ok (VInt n)
  | None => Raise ValueError
  end.

Definition is_bool (v : Value) : bool :=
  match v with VBool _ => true | _ => false end.

Definition mapping : gmap string Z :=
  list_to_map [("Y", 1); ("YES", 1); ("TRUE", 1); ("T", 1); ("1", 1)].

(** One cell of
    [series.astype(str).str.strip().str.upper().map(mapping).fillna(0)].
    [str] prints None, NaN and NaT as text that is no key of [mapping],
    [True] as "True" and the integer 1 as "1". *)
Definition map_text (v : Value) : Z :=
  match v with
  | VStr s => default 0 (mapping !! upper (strip s))
  | VBool b => Z.b2z b
  | VInt n => if decide (n = 1) then 1 else 0
  | _ => 0
  end.

Definition normalize_flag (series : list Value) : result (list Value) :=
  match series with
  | [] => Ok []
  | _ :: _ =>
      if forallb is_bool series then
        Ok ((λ v, VInt (Z.b2z (bool_decide (v = VBool true)))) <$> series)
      else
        let numeric := to_numeric <$> series in
        if existsb (λ x, negb (F64.is_nan x)) numeric then
          map_result (λ x, astype_int64 (fillna F64.zero x)) numeric
        else
          Ok ((λ v, VInt (map_text v)) <$> series)
  end.

(** [if name in chunk.columns: chunk = body(chunk)] *)
Definition when_col (name : string) (body : DataFrame → result DataFrame)
    (chunk : DataFrame) : result DataFrame :=
  if has_col chunk name then body chunk else Ok chunk.

Definition normalize_delay (name indicator : string) (chunk : DataFrame)
  : result DataFrame :=
  series ← get_col chunk name;
  let chunk := set_col chunk name (VFloat ∘ to_numeric <$> series) in
  series ← get_col chunk name;
  Ok (set_col chunk indicator (over_15 ∘ to_numeric <$> series)).

Definition normalize_flag_col (name : string) (chunk : DataFrame)
  : result DataFrame :=
  series ← get_col chunk name;
  flags ← normalize_flag series;
  Ok (set_col chunk name flags).

Definition normalize_cause (chunk : DataFrame) (cause_col : string)
  : result DataFrame :=
  when_col cause_col (λ chunk,
    series ← get_col chunk cause_col;
    Ok (set_col chunk cause_col
          (VFloat ∘ fillna F64.zero ∘ to_numeric <$> series))) chunk.

Definition preprocess_chunk (chunk : DataFrame) : result DataFrame :=
  series ← get_col chunk "FL_DATE";
  let chunk := set_col chunk "FL_DATE" (to_datetime <$> series) in
  let chunk := dropna chunk "FL_DATE" in
  series ← get_col chunk "FL_DATE";
  let chunk := set_col chunk "month" (to_period_M <$> series) in
  chunk ← when_col "ARR_DELAY" (normalize_delay "ARR_DELAY" "arr_delay_over_15") chunk;
  chunk ← when_col "DEP_DELAY" (normalize_delay "DEP_DELAY" "dep_delay_over_15") chunk;
  chunk ← when_col "CANCELLED" (normalize_flag_col "CANCELLED") chunk;
  chunk ← when_col "DIVERTED" (normalize_flag_col "DIVERTED") chunk;
  for_each normalize_cause (fst <$> DELAY_CAUSE_COLUMNS) chunk.

End Normalizer.

(** ** Aggregator *)

(** [new_stats()]: a fresh Metric Record *)
Definition new_stats : gmap string Num :=
  foldl (λ stats field,
           <[field := if bool_decide (field ∈ SUM_FIELDS)
                      then NFloat F64.zero else NInt 0]> stats)
        ∅ METRIC_FIELDS.

(** The aggregation functions [build_agg_spec] names *)
Inductive AggFunc := AggSize | AggSum | AggCount.

Definition build_agg_spec (chunk : DataFrame)
  : list (string * (string * AggFunc)) :=
  [("flights", ("FL_DATE", AggSize))]
  ++ (if has_col chunk "ARR_DELAY" then
        [("arr_delay_sum", ("ARR_DELAY", AggSum));
         ("arr_delay_count", ("ARR_DELAY", AggCount));
         ("arr_delay_over_15", ("arr_delay_over_15", AggSum))]
      else [])
  ++ (if has_col chunk "DEP_DELAY" then
        [("dep_delay_sum", ("DEP_DELAY", AggSum));
         ("dep_delay_count", ("DEP_DELAY", AggCount));
         ("dep_delay_over_15", ("dep_delay_over_15", AggSum))]
      else [])
  ++ (if has_col chunk "CANCELLED" then [("cancelled", ("CANCELLED", AggSum))]
      else [])
  ++ (if has_col chunk "DIVERTED" then [("diverted", ("DIVERTED", AggSum))]
      else [])
  ++ flat_map (λ '(cause_col, field_name),
                 if has_col chunk cause_col
                 then [(field_name, (cause_col, AggSum))] else [])
              DELAY_CAUSE_COLUMNS.

(** The number held by a numeric cell *)
Definition as_num (v : Value) : option Num :=
  match v with
  | VBool b => Some (NInt (Z.b2z b))
  | VInt n => Some (NInt n)
  | VFloat x => Some (NFloat x)
  | _ => None
  end.

(** [series.sum()] with [skipna=True], the pandas default: the missing
    values are left out and the others are added from zero, left to
    right; an integer series has an integer sum. *)
Fixpoint sum_from (acc : Num) (series : list Value) : result Num :=
  match series with
  | [] => Ok acc
  | v :: rest =>
      if isna v then sum_from acc rest
      else match as_num v with
           | Some n => sum_from (py_add acc n) rest
           | None => Raise TypeError
           end
  end.

Definition series_sum (series : list Value) : result Num :=
  sum_from (NInt 0) series.

(** [series.count()]: the number of values that are not missing *)
Definition series_count (series : list Value) : Z :=
  Z.of_nat (length (filter (λ v, isna v = false) series)).

(** The result of [df.groupby(keys).agg(spec)]: the aggregate columns and
    one row of aggregates per group key. *)
Record Grouped := MkGrouped {
  g_columns : list string;
  g_rows : list (list Value * gmap string Num)
}.

Definition grouped_empty (g : Grouped) : bool :=
  match g_columns g, g_rows g with
  | _ :: _, _ :: _ => false
  | _, _ => true
  end.

(** The key of a row; pandas drops the rows with a missing key value. *)
Definition group_key (keys : list string) (row : gmap string Value)
  : option (list Value) :=
  let key := (λ name, cell name row) <$> keys in
  if existsb isna key then None else Some key.

Definition aggregate (func : AggFunc) (col : string)
    (rows : list (gmap string Value)) : result Num :=
  match func with
  | AggSize => Ok (NInt (Z.of_nat (length rows)))
  | AggSum => series_sum (cell col <$> rows)
  | AggCount => Ok (NInt (series_count (cell col <$> rows)))
  end.

Definition aggregate_group (chunk : DataFrame)
    (spec : list (string * (string * AggFunc)))
    (rows : list (gmap string Value)) : result (gmap string Num) :=
  for_each (λ acc '(name, (col, func)),
              if has_col chunk col then
                v ← aggregate func col rows; Ok (<[name := v]> acc)
              else Raise KeyError)
           spec ∅.

(** [chunk.groupby(keys, observed=True).agg(spec)]. The groups are listed
    in order of first appearance (pandas sorts them; the tables they are
    merged into are maps, so the order plays no part). *)
Definition groupby_agg (chunk : DataFrame) (keys : list string)
    (spec : list (string * (string * AggFunc))) : result Grouped :=
  if forallb (has_col chunk) keys then
    let keyed :=
      omap (λ row, (λ key, (key, row)) <$> group_key keys row) (df_rows chunk) in
    rows ← map_result
              (λ key,
                 let members :=
                   snd <$> filter (λ kr, kr.1 = key) keyed in
                 agg ← aggregate_group chunk spec members;
                 Ok (key, agg))
              (remove_dups (fst <$> keyed));
    Ok {| g_columns := fst <$> spec; g_rows := rows |}
  else Raise KeyError.

(** [stats[field] += v] *)
Definition stats_add (stats : gmap string Num) (field : string) (v : Num)
  : result (gmap string Num) :=
  old ← getitem stats field;
  Ok (<[field := py_add old v]> stats).

(** The body of the inner loop of [update_table] *)
Definition update_field (row : gmap string Num)
    (stats : gmap string Num) (field : string) : result (gmap string Num) :=
  if decide (field = "flights") then Ok stats
  else
    value ← getitem row field;
    if num_isna value then Ok stats
    else if bool_decide (field ∈ SUM_FIELDS) then
      stats_add stats field (NFloat (py_float value))
    else
      n ← py_int value;
      stats_add stats field (NInt n).

(** The body of the outer loop of [update_table]. [table[key_tuple]] on a
    [defaultdict(new_stats)] makes a fresh record for an unseen key. The
    rows of [iterrows] carry the counts as float64 when a float column is
    present, exactly so below 2^53; here the counts stay integers. *)
Definition update_row (columns : list string)
    (table : gmap (list Value) (gmap string Num))
    (keyed_row : list Value * gmap string Num)
  : result (gmap (list Value) (gmap string Num)) :=
  let '(key_tuple, row) := keyed_row in
  let stats := default new_stats (table !! key_tuple) in
  flights ← getitem row "flights";
  n ← py_int flights;
  stats ← stats_add stats "flights" (NInt n);
  stats ← for_each (update_field row) columns stats;
  Ok (<[key_tuple := stats]> table).

Definition update_table (table : gmap (list Value) (gmap string Num))
    (grouped : Grouped) : result (gmap (list Value) (gmap string Num)) :=
  if grouped_empty grouped then Ok table
  else for_each (update_row (g_columns grouped)) (g_rows grouped) table.

Definition COLUMN_TO_METRICS : list (string * gset string) :=
  [ ("ARR_DELAY", {[ "arr_delay_sum"; "arr_delay_count"; "arr_delay_over_15" ]});
    ("DEP_DELAY", {[ "dep_delay_sum"; "dep_delay_count"; "dep_delay_over_15" ]});
    ("CANCELLED", {[ "cancelled" ]});
    ("DIVERTED", {[ "diverted" ]}) ]
  ++ ((λ '(source_col, target_field), (source_col, {[ target_field ]}))
      <$> DELAY_CAUSE_COLUMNS).

Definition update_metrics_present (metrics_present : gset string)
    (chunk : DataFrame) : gset string :=
  foldl (λ present '(column, metrics),
           if has_col chunk column then present ∪ metrics else present)
        metrics_present COLUMN_TO_METRICS.

(** [overall[field] += float(chunk[col].sum())] and its integer twin *)
Definition overall_add_sum (as_float : bool) (field col : string)
    (chunk : DataFrame) (overall : gmap string Num)
  : result (gmap string Num) :=
  series ← get_col chunk col;
  total ← series_sum series;
  if as_float then stats_add overall field (NFloat (py_float total))
  else n ← py_int total; stats_add overall field (NInt n).

(** [overall[field] += int(chunk[col].count())] *)
Definition overall_add_count (field col : string)
    (chunk : DataFrame) (overall : gmap string Num)
  : result (gmap string Num) :=
  series ← get_col chunk col;
  stats_add overall field (NInt (series_count series)).

Definition overall_delay (col sum_field count_field over_field : string)
    (chunk : DataFrame) (overall : gmap string Num)
  : result (gmap string Num) :=
  if has_col chunk col then
    overall ← overall_add_sum true sum_field col chunk overall;
    overall ← overall_add_count count_field col chunk overall;
    if has_col chunk over_field
    then overall_add_sum false over_field over_field chunk overall
    else Ok overall
  else Ok overall.

Definition overall_flag (col field : string)
    (chunk : DataFrame) (overall : gmap string Num)
  : result (gmap string Num) :=
  if has_col chunk col then overall_add_sum false field col chunk overall
  else Ok overall.

Definition update_overall (overall : gmap string Num) (chunk : DataFrame)
  : result (gmap string Num) :=
  overall ← stats_add overall "flights"
              (NInt (Z.of_nat (length (df_rows chunk))));
  overall ← overall_delay "ARR_DELAY" "arr_delay_sum" "arr_delay_count"
              "arr_delay_over_15" chunk overall;
  overall ← overall_delay "DEP_DELAY" "dep_delay_sum" "dep_delay_count"
              "dep_delay_over_15" chunk overall;
  overall ← overall_flag "CANCELLED" "cancelled" chunk overall;
  overall ← overall_flag "DIVERTED" "diverted" chunk overall;
  for_each (λ overall '(cause_col, field_name),
              if has_col chunk cause_col
              then overall_add_sum true field_name cause_col chunk overall
              else Ok overall)
           DELAY_CAUSE_COLUMNS overall.

(** ** Metric Enricher *)

(** [finalize_table]: one record per group key, the key fields followed
    by the metric fields ([record.update(metrics)] lets a metric win over
    a key field of the same name). *)
Definition finalize_table (table : gmap (list Value) (gmap string Num))
    (key_names : list string) : DataFrame :=
  {| df_columns := key_names ++ METRIC_FIELDS;
     df_rows :=
       (λ record : list Value * gmap string Num,
          (num_value <$> record.2) ∪ list_to_map (zip key_names record.1))
       <$> map_to_list table |}.

(** A cell of a numeric column as float64; [None] reads as NaN. *)
Definition as_float (v : Value) : result float :=
  match v with
  | VNull => Ok F64.nan
  | _ => match as_num v with
         | Some n => Ok (py_float n)
         | None => Raise TypeError
         end
  end.

(** One cell of [denominator.replace(0, np.nan)] *)
Definition replace_zero_nan (x : float) : float :=
  if F64.is_zero x then F64.nan else x.

Definition safe_divide (numerator denominator : list Value)
  : result (list float) :=
  denominator ← map_result (λ v, replace_zero_nan <$> as_float v) denominator;
  numerator ← map_result as_float numerator;
  Ok (zip_with F64.div numerator denominator).

(** [if {num, den}.issubset(df.columns):
       df[name] = post(safe_divide(df[num], df[den]))], on the copy
    [enrich_metrics] works on *)
Definition derive (name num den : string) (post : float → float)
    (df : DataFrame) : result DataFrame :=
  if has_col df num && has_col df den then
    numerator ← get_col df num;
    denominator ← get_col df den;
    ratio ← safe_divide numerator denominator;
    Ok (set_col df name (VFloat ∘ post <$> ratio))
  else Ok df.

Definition enrich_metrics (df : DataFrame) : result DataFrame :=
  if df_empty df then Ok df
  else
    df ← derive "avg_arr_delay" "arr_delay_sum" "arr_delay_count" id df;
    df ← derive "avg_dep_delay" "dep_delay_sum" "dep_delay_count" id df;
    df ← derive "on_time_rate" "arr_delay_over_15" "arr_delay_count"
           (F64.sub F64.one) df;
    df ← derive "departure_delay_rate" "dep_delay_over_15" "dep_delay_count"
           id df;
    df ← derive "cancellation_rate" "cancelled" "flights" id df;
    derive "diversion_rate" "diverted" "flights" id df.

(** ** Pipeline driver *)

(** The accumulators [process_dataset] owns. *)
Record State := MkState {
  monthly_stats : gmap (list Value) (gmap string Num);
  carrier_stats : gmap (list Value) (gmap string Num);
  origin_stats : gmap (list Value) (gmap string Num);
  route_stats : gmap (list Value) (gmap string Num);
  overall_stats : gmap string Num;
  metrics_present : gset string
}.

Definition initial_state : State :=
  {| monthly_stats := ∅; carrier_stats := ∅; origin_stats := ∅;
     route_stats := ∅; overall_stats := new_stats; metrics_present := ∅ |}.

(** [if all(c in chunk.columns for c in keys):
       update_table(table, chunk.groupby(keys).agg(spec))] *)
Definition update_dimension (chunk : DataFrame) (keys : list string)
    (table : gmap (list Value) (gmap string Num))
  : result (gmap (list Value) (gmap string Num)) :=
  if forallb (has_col chunk) keys then
    grouped ← groupby_agg chunk keys (build_agg_spec chunk);
    update_table table grouped
  else Ok table.

Section Driver.
Context `{Pandas}.

(** The body of the loop over the chunks of a file; [chunk] has its
    columns already renamed to the canonical names. *)
Definition process_chunk (st : State) (chunk : DataFrame) : result State :=
  chunk ← preprocess_chunk chunk;
  if df_empty chunk then Ok st
  else
    let present := update_metrics_present (metrics_present st) chunk in
    overall ← update_overall (overall_stats st) chunk;
    monthly ← update_dimension chunk ["month"] (monthly_stats st);
    carrier ← update_dimension chunk ["OP_CARRIER"] (carrier_stats st);
    origin ← update_dimension chunk ["ORIGIN"] (origin_stats st);
    route ← update_dimension chunk ["ORIGIN"; "DEST"] (route_stats st);
    Ok {| monthly_stats := monthly; carrier_stats := carrier;
          origin_stats := origin; route_stats := route;
          overall_stats := overall; metrics_present := present |}.

Definition process_chunks (chunks : list DataFrame) : result State :=
  for_each process_chunk chunks initial_state.

End Driver.

(** Truth value of a Python number *)
Definition truthy (v : Num) : bool :=
  match v with
  | NInt n => negb (Z.eqb n 0)
  | NFloat x => negb (F64.is_zero x)
  end.

(** The overall cancellation rate [build_report] prints, before the
    scaling to a percentage: [overall["cancelled"] / overall["flights"]]
    under the guard ["cancelled" in metrics_present and
    overall.get("flights")]; [None] when the bullet is left out. The
    quotient of two Python ints below 2^53 is the binary64 quotient of
    their conversions. *)
Definition overall_cancellation_rate (overall : gmap string Num)
    (present : gset string) : option float :=
  match overall !! "flights", overall !! "cancelled" with
  | Some flights, Some cancelled =>
      if bool_decide ("cancelled" ∈ present) && truthy flights
      then Some (F64.div (py_float cancelled) (py_float flights))
      else None
  | _, _ => None
  end.

(** ** A reference instance of the parsers *)

(** Plain decimal literals and ISO dates, enough for the examples; the
    general results below hold for every instance of [Pandas]. *)
Module Reference.

Definition digit (c : ascii) : option Z :=
  let n := nat_of_ascii c in
  if ((48 <=? n) && (n <=? 57))%nat then Some (Z.of_nat (n - 48)) else None.

(** The digits of [s] read from [acc] on, and how many were read *)
Fixpoint digits (acc : Z) (count : Z) (s : list ascii) : option (Z * Z) :=
  match s with
  | [] => Some (acc, count)
  | c :: rest =>
      match digit c with
      | Some d => digits (10 * acc + d) (count + 1) rest
      | None => None
      end
  end.

Fixpoint split_dot (s : list ascii) : list ascii * option (list ascii) :=
  match s with
  | [] => ([], None)
  | c :: rest =>
      if decide (c = "."%char) then ([], Some rest)
      else let '(int_part, frac) := split_dot rest in (c :: int_part, frac)
  end.

Definition unsigned_decimal (s : list ascii) : option float :=
  let '(int_part, frac) := split_dot s in
  let frac := default [] frac in
  match digits 0 0 int_part with
  | Some (n, c1) =>
      match digits n 0 frac with
      | Some (m, c2) =>
          if decide (c1 + c2 = 0) then None else Some (F64.dec m c2)
      | None => None
      end
  | None => None
  end.

Definition decimal (s : string) : option float :=
  match list_ascii_of_string (strip s) with
  | c :: rest =>
      if decide (c = "-"%char) then SFopp <$> unsigned_decimal rest
      else if decide (c = "+"%char) then unsigned_decimal rest
      else unsigned_decimal (c :: rest)
  | [] => None
  end.

Definition leap_year (y : Z) : bool :=
  (Z.eqb (y mod 4) 0 && negb (Z.eqb (y mod 100) 0)) || Z.eqb (y mod 400) 0.

Definition days_in_month (y m : Z) : Z :=
  if decide (m = 2) then (if leap_year y then 29 else 28)
  else if decide (m = 4 ∨ m = 6 ∨ m = 9 ∨ m = 11) then 30 else 31.

Definition number (s : list ascii) : option Z := fst <$> digits 0 0 s.

(** [YYYY-MM-DD] *)
Definition iso_date (s : string) : option Timestamp :=
  match list_ascii_of_string s with
  | [y1; y2; y3; y4; sep1; m1; m2; sep2; d1; d2] =>
      y ← number [y1; y2; y3; y4];
      m ← number [m1; m2];
      d ← number [d1; d2];
      if decide (sep1 = "-"%char ∧ sep2 = "-"%char
                 ∧ 1 ≤ m ≤ 12 ∧ 1 ≤ d ≤ days_in_month y m)
      then Some (MkTimestamp y m d) else None
  | _ => None
  end.

Definition datetime (v : Value) : option Timestamp :=
  match v with
  | VTime t => Some t
  | VStr s => iso_date s
  | _ => None
  end.

#[global] Instance pandas : Pandas :=
  {| parse_datetime := datetime; parse_float := decimal |}.

End Reference.

(* ===================================================================== *)
(** * Part I, continued: the vocabulary of the properties                *)
(* ===================================================================== *)

(** The aliases [determine_available_columns] tries for a canonical
    field, in their declared order. *)
Definition aliases_of (canonical : string) : list string :=
  default [canonical] (COLUMN_ALIASES !! canonical).

(** [alias] is the first of [aliases] that is a column of the header. *)
Definition first_present (columns aliases : list string) (alias : string)
  : Prop :=
  ∃ i : nat, aliases !! i = Some alias ∧ alias ∈ columns
    ∧ ∀ (j : nat) other, (j < i)%nat → aliases !! j = Some other → other ∉ columns.

(** The text encodings of a set flag, after [strip] and [upper]. *)
Definition recognized (s : string) : Prop :=
  upper (strip s) ∈ ["Y"; "YES"; "TRUE"; "T"; "1"].

#[global] Instance recognized_dec s : Decision (recognized s).
Proof. unfold recognized. apply _. Defined.

Section FlagsVocabulary.
Context `{Pandas}.

(** A cell that [pd.to_numeric] turns into a number. *)
Definition numeric_cell (v : Value) : Prop := F64.is_nan (to_numeric v) = false.

#[global] Instance numeric_cell_dec v : Decision (numeric_cell v).
Proof. unfold numeric_cell. apply _. Defined.

End FlagsVocabulary.

(** The quotient [safe_divide] computes on one row. *)
Definition quotient (num den : string) (row : gmap string Value)
  : result float :=
  d ← as_float (cell den row);
  n ← as_float (cell num row);
  Ok (F64.div n (replace_zero_nan d)).

Definition active (num den : string) (df : DataFrame) : bool :=
  has_col df num && has_col df den.

(** A row that already carries the derived field [name], with the value
    [derive] would give it. *)
Definition enriched (name num den : string) (post : float → float)
    (row : gmap string Value) : Prop :=
  ∃ q, quotient num den row = Ok q ∧ row !! name = Some (VFloat (post q)).

(** The derived fields of [enrich_metrics], in the order it adds them. *)
Definition derivations : list (string * string * string * (float → float)) :=
  [ ("avg_arr_delay", "arr_delay_sum", "arr_delay_count", id);
    ("avg_dep_delay", "dep_delay_sum", "dep_delay_count", id);
    ("on_time_rate", "arr_delay_over_15", "arr_delay_count", F64.sub F64.one);
    ("departure_delay_rate", "dep_delay_over_15", "dep_delay_count", id);
    ("cancellation_rate", "cancelled", "flights", id);
    ("diversion_rate", "diverted", "flights", id) ].

Definition derive_one (df : DataFrame)
    (d : string * string * string * (float → float)) : result DataFrame :=
  derive d.1.1.1 d.1.1.2 d.1.2 d.2 df.

(** No derived field is an input of a quotient or a metric field, and no
    two derived fields share a name. *)
Definition derived_names : list string := (λ d, d.1.1.1) <$> derivations.

Definition input_names : list string :=
  mbind (λ d, [d.1.1.2; d.1.2]) derivations.

(** The hypotheses on a list of derivations under which the chain is
    idempotent: distinct names, none of them an input. *)
Definition independent (ds : list (string * string * string * (float → float)))
  : Prop :=
  NoDup ((λ d, d.1.1.1) <$> ds)
  ∧ ∀ d d', d ∈ ds → d' ∈ ds → d.1.1.1 ≠ d'.1.1.2 ∧ d.1.1.1 ≠ d'.1.2.

(** A row all of whose metric cells are numbers or missing. *)
Definition numeric_row (row : gmap string Value) : Prop :=
  ∀ field, field ∈ METRIC_FIELDS → ∃ x, as_float (cell field row) = Ok x.

Section NormalizerFactsVocabulary.
Context `{Pandas}.

(** The rows of a chunk whose date parses. *)
Definition parsed (row : gmap string Value) : Prop :=
  is_Some (parse_datetime (cell "FL_DATE" row)).

#[global] Instance parsed_dec row : Decision (parsed row).
Proof. unfold parsed. apply _. Defined.


(** The frame [preprocess_chunk] holds after [dropna]. *)
Definition dated (chunk : DataFrame) : DataFrame :=
  dropna (set_col chunk "FL_DATE"
            (to_datetime <$> (cell "FL_DATE" <$> df_rows chunk))) "FL_DATE".

Definition date_row (row : gmap string Value) : gmap string Value :=
  <["FL_DATE" := to_datetime (cell "FL_DATE" row)]> row.

End NormalizerFactsVocabulary.

(** [row[name] = v] when the column is present, nothing otherwise. *)
Definition put (on : bool) (name : string) (v : Value)
    (row : gmap string Value) : gmap string Value :=
  if on then <[name := v]> row else row.

Section NormalizerStepsVocabulary.
Context `{Pandas}.

(** What [normalize_delay] does to a row. *)
Definition delay_row (on : bool) (name ind : string)
    (row : gmap string Value) : gmap string Value :=
  put on ind (over_15 (to_numeric (cell name row)))
    (put on name (VFloat (to_numeric (cell name row))) row).

(** What [normalize_cause] does to a row. *)
Definition cause_row (chunk : DataFrame) (row : gmap string Value)
    (cause_col : string) : gmap string Value :=
  put (has_col chunk cause_col) cause_col
      (VFloat (fillna F64.zero (to_numeric (cell cause_col row)))) row.

(** A row of the normalised chunk, from the raw row it comes from and
    the flags [normalize_flag] gave it. *)
Definition norm_row (chunk : DataFrame) (cancelled diverted : Value)
    (raw : gmap string Value) : gmap string Value :=
  let row := date_row raw in
  let row := <["month" := to_period_M (cell "FL_DATE" row)]> row in
  let row := delay_row (has_col chunk "ARR_DELAY")
               "ARR_DELAY" "arr_delay_over_15" row in
  let row := delay_row (has_col chunk "DEP_DELAY")
               "DEP_DELAY" "dep_delay_over_15" row in
  let row := put (has_col chunk "CANCELLED") "CANCELLED" cancelled row in
  let row := put (has_col chunk "DIVERTED") "DIVERTED" diverted row in
  foldl (cause_row chunk) row (fst <$> DELAY_CAUSE_COLUMNS).

End NormalizerStepsVocabulary.


(** The type a metric field holds: a float for a sum, an int for a count. *)
Definition typed (field : string) (v : Num) : Prop :=
  if bool_decide (field ∈ SUM_FIELDS) then ∃ x, v = NFloat x else ∃ n, v = NInt n.

(** A Metric Record: exactly the metric fields, each of its type. *)
Definition wf_stats (stats : gmap string Num) : Prop :=
  dom stats = list_to_set METRIC_FIELDS
  ∧ ∀ field v, stats !! field = Some v → typed field v.

Definition wf_table (table : gmap (list Value) (gmap string Num)) : Prop :=
  ∀ key stats, table !! key = Some stats → wf_stats stats.

(** The integer a count field holds (0 for anything else). *)
Definition count_of (stats : gmap string Num) (field : string) : Z :=
  match stats !! field with
  | Some (NInt n) => n
  | _ => 0
  end.

Fixpoint Zsum (zs : list Z) : Z :=
  match zs with
  | [] => 0
  | z :: rest => z + Zsum rest
  end.

(** What processing [field] adds to the count field [other]. *)
Definition field_delta (row : gmap string Num) (field other : string) : Z :=
  if decide (field = other ∧ field ≠ "flights") then
    match row !! field with
    | Some value =>
        if num_isna value then 0
        else match py_int value with Ok n => n | Raise _ => 0 end
    | None => 0
    end
  else 0.

(** The fields [update_field] accepts. *)
Definition field_ok (row : gmap string Num) (field : string) : Prop :=
  field = "flights"
  ∨ ∃ value, row !! field = Some value
      ∧ (num_isna value = true
         ∨ (field ∈ METRIC_FIELDS
            ∧ (field ∈ SUM_FIELDS ∨ ∃ n, py_int value = Ok n))).

(** The flights a row of partial aggregates carries. *)
Definition flights_of (row : gmap string Num) : Z :=
  match row !! "flights" with
  | Some value => match py_int value with Ok n => n | Raise _ => 0 end
  | None => 0
  end.

(** What merging one row of partial aggregates adds to a count field. *)
Definition row_delta (columns : list string) (row : gmap string Num)
    (other : string) : Z :=
  (if decide (other = "flights") then flights_of row else 0)
  + Zsum ((λ field, field_delta row field other) <$> columns).

(** The rows [update_row] accepts. *)
Definition row_ok (columns : list string) (row : gmap string Num) : Prop :=
  (∃ value n, row !! "flights" = Some value ∧ py_int value = Ok n)
  ∧ Forall (field_ok row) columns.

(** The count a table holds for a key, 0 for a key it does not have. *)
Definition count_at (table : gmap (list Value) (gmap string Num))
    (key : list Value) (field : string) : Z :=
  count_of (default new_stats (table !! key)) field.

(** What merging a grouped frame adds to a count field of a key. *)
Definition grouped_delta (grouped : Grouped) (key : list Value)
    (other : string) : Z :=
  if grouped_empty grouped then 0
  else Zsum ((λ kr, if decide (key = kr.1)
                    then row_delta (g_columns grouped) kr.2 other else 0)
             <$> g_rows grouped).

(** The keys a grouped frame brings to a table. *)
Definition grouped_keys (grouped : Grouped) : list (list Value) :=
  if grouped_empty grouped then [] else (g_rows grouped).*1.

(** The grouped frames [update_table] accepts. *)
Definition grouped_ok (grouped : Grouped) : Prop :=
  grouped_empty grouped = true
  ∨ Forall (λ kr, row_ok (g_columns grouped) kr.2) (g_rows grouped).


(** Every record of the accumulators is a Metric Record. *)
Definition wf_state (st : State) : Prop :=
  wf_table (monthly_stats st) ∧ wf_table (carrier_stats st)
  ∧ wf_table (origin_stats st) ∧ wf_table (route_stats st)
  ∧ wf_stats (overall_stats st).

Module Scenario.

Definition row (date carrier origin dest : string) (arr_delay dep_delay : Value)
    (cancelled : string) : gmap string Value :=
  list_to_map
    [ ("FL_DATE", VStr date); ("OP_CARRIER", VStr carrier);
      ("ORIGIN", VStr origin); ("DEST", VStr dest);
      ("ARR_DELAY", arr_delay); ("DEP_DELAY", dep_delay);
      ("CANCELLED", VStr cancelled) ].

(** The batch of three rows, columns already renamed. *)
Definition batch : DataFrame :=
  {| df_columns := ["FL_DATE"; "OP_CARRIER"; "ORIGIN"; "DEST";
                    "ARR_DELAY"; "DEP_DELAY"; "CANCELLED"];
     df_rows :=
       [ row "2024-01-05" "AA" "JFK" "LAX" (VInt 20) (VInt 5) "N";
         row "2024-01-20" "AA" "JFK" "LAX" VNull VNull "Y";
         row "2024-02-01" "DL" "ATL" "LAX" (VInt 10) (VInt (-3)) "N" ] |}.

(** A metric of a group of a table. *)
Definition metric (table : gmap (list Value) (gmap string Num))
    (key : list Value) (field : string) : option Num :=
  table !! key ≫= (.!! field).

(** The values of column [col] in the rows whose [key_col] is [key]. *)
Definition column_where (df : DataFrame) (key_col : string) (key : Value)
    (col : string) : list Value :=
  omap (λ row, if decide (row !! key_col = Some key) then row !! col else None)
       (df_rows df).

(** What the scenario expects of the final state and the carrier table. *)
Definition expected (st : State) (carrier : DataFrame) : Prop :=
  dom (monthly_stats st) = {[ [VPeriod 2024 1]; [VPeriod 2024 2] ]}
  ∧ metric (monthly_stats st) [VPeriod 2024 1] "flights" = Some (NInt 2)
  ∧ metric (monthly_stats st) [VPeriod 2024 1] "arr_delay_count" = Some (NInt 1)
  ∧ metric (monthly_stats st) [VPeriod 2024 1] "arr_delay_sum"
    = Some (NFloat (F64.of_Z 20))
  ∧ metric (monthly_stats st) [VPeriod 2024 1] "arr_delay_over_15" = Some (NInt 1)
  ∧ metric (monthly_stats st) [VPeriod 2024 1] "cancelled" = Some (NInt 1)
  ∧ metric (monthly_stats st) [VPeriod 2024 2] "flights" = Some (NInt 1)
  ∧ metric (monthly_stats st) [VPeriod 2024 2] "arr_delay_count" = Some (NInt 1)
  ∧ metric (monthly_stats st) [VPeriod 2024 2] "arr_delay_sum"
    = Some (NFloat (F64.of_Z 10))
  ∧ metric (monthly_stats st) [VPeriod 2024 2] "arr_delay_over_15" = Some (NInt 0)
  ∧ metric (monthly_stats st) [VPeriod 2024 2] "cancelled" = Some (NInt 0)
  ∧ column_where carrier "OP_CARRIER" (VStr "AA") "on_time_rate"
    = [VFloat F64.zero]
  ∧ column_where carrier "OP_CARRIER" (VStr "DL") "on_time_rate"
    = [VFloat F64.one]
  ∧ overall_cancellation_rate (overall_stats st) (metrics_present st)
    = Some (F64.div (F64.of_Z 1) (F64.of_Z 3)).

#[global] Instance expected_dec st carrier : Decision (expected st carrier).
Proof. unfold expected. apply _. Defined.

End Scenario.

Module Sample.

(** A chunk of one flight of carrier "AA" on 2024-01-05. *)
Definition flight (arr_delay cancelled : Value) : DataFrame :=
  {| df_columns := ["FL_DATE"; "OP_CARRIER"; "ARR_DELAY"; "CANCELLED"];
     df_rows :=
       [ list_to_map
           [ ("FL_DATE", VStr "2024-01-05"); ("OP_CARRIER", VStr "AA");
             ("ARR_DELAY", arr_delay); ("CANCELLED", cancelled) ] ] |}.


Definition tenth (n : Z) : float := F64.dec n 1.


(** Three one-row chunks, and the same three in reverse. *)
Definition chunks : list DataFrame :=
  (λ n, flight (VFloat (tenth n)) (VInt 0)) <$> [1; 2; 3].



(** The value of a run, or the fallback when it raises. *)
Definition value {A : Type} (fallback : A) (run : result A) : A :=
  match run with Ok a => a | Raise _ => fallback end.

Definition returns {A : Type} (run : result A) : bool :=
  match run with Ok _ => true | Raise _ => false end.


(** One group without any flight counted yet. *)
Definition table : gmap (list Value) (gmap string Num) :=
  {[ [VStr "AA"] := new_stats ]}.

Definition enriched_table : DataFrame :=
  value (finalize_table table ["OP_CARRIER"])
        (enrich_metrics (finalize_table table ["OP_CARRIER"])).

Definition normalized (chunk : DataFrame) : DataFrame :=
  value chunk (@preprocess_chunk Reference.pandas chunk).


End Sample.


(** A row as the normaliser leaves it: the month a calendar month, the
    delays floats with integer indicators, the flags integers, the delay
    causes floats, each for the columns the frame has. *)
Definition normalized_row (X : DataFrame) (row : gmap string Value) : Prop :=
  (∃ y m, cell "month" row = VPeriod y m)
  ∧ (∀ name ind,
       (name, ind) ∈ [("ARR_DELAY", "arr_delay_over_15");
                      ("DEP_DELAY", "dep_delay_over_15")] →
       has_col X name = true →
       ∃ x n, cell name row = VFloat x ∧ cell ind row = VInt n)
  ∧ (∀ name, name ∈ ["CANCELLED"; "DIVERTED"] → has_col X name = true →
       ∃ n, cell name row = VInt n)
  ∧ (∀ name, name ∈ fst <$> DELAY_CAUSE_COLUMNS → has_col X name = true →
       ∃ x, cell name row = VFloat x).

Definition normalized_frame (X : DataFrame) : Prop :=
  has_col X "FL_DATE" = true ∧ has_col X "month" = true
  ∧ (has_col X "ARR_DELAY" = true → has_col X "arr_delay_over_15" = true)
  ∧ (has_col X "DEP_DELAY" = true → has_col X "dep_delay_over_15" = true)
  ∧ Forall (normalized_row X) (df_rows X).

(** What the aggregate of a metric field has to be for the merge to
    take it: any number for a sum field, an integer for a count field. *)
Definition mergeable (name : string) (v : Num) : Prop :=
  name ∈ METRIC_FIELDS ∧ (name ∈ SUM_FIELDS ∨ ∃ n, v = NInt n).



Section RunVocabulary.
Context `{Pandas}.


End RunVocabulary.

(* ===================================================================== *)
(** * Part II: properties                                                 *)
(* ===================================================================== *)

(** ** The exception monad *)

Lemma Ok_inj {A : Type} (a b : A) : Ok a = Ok b → a = b.
Proof. congruence. Qed.

Lemma bind_Ok {A B : Type} (m : result A) (k : A → result B) (b : B) :
  m ≫= k = Ok b ↔ ∃ a, m = Ok a ∧ k a = Ok b.
Proof.
  destruct m as [a|e]; simpl; split.
  - eauto.
  - by intros (a' & [= <-] & ?).
  - discriminate.
  - by intros (a' & [=] & ?).
Qed.

Lemma fmap_Ok {A B : Type} (f : A → B) (m : result A) (b : B) :
  f <$> m = Ok b ↔ ∃ a, m = Ok a ∧ b = f a.
Proof.
  destruct m as [a|e]; simpl; split.
  - intros [= <-]. eauto.
  - by intros (a' & [= <-] & ->).
  - discriminate.
  - by intros (a' & [=] & ?).
Qed.

(** Membership in a list given by its elements. *)
Ltac in_list :=
  solve [repeat first [apply list_elem_of_here | apply list_elem_of_further]].

(** Invert a successful run of a sequence of binds. *)
Ltac inv_ok :=
  repeat match goal with
  | H : Ok _ = Ok _ |- _ => apply Ok_inj in H; try subst
  | H : Raise _ = Ok _ |- _ => discriminate H
  | H : _ ≫= _ = Ok _ |- _ =>
      let a := fresh "a" in
      let Ha := fresh "Ha" in
      apply bind_Ok in H as (a & Ha & H)
  | H : _ <$> _ = Ok _ |- _ =>
      let a := fresh "a" in
      let Ha := fresh "Ha" in
      apply fmap_Ok in H as (a & Ha & H)
  end.

Lemma for_each_app {A S : Type} (body : S → A → result S) xs ys s :
  for_each body (xs ++ ys) s = for_each body xs s ≫= for_each body ys.
Proof.
  revert s. induction xs as [|x xs IH]; intros s; simpl; [done|].
  destruct (body s x); simpl; auto.
Qed.

(** An invariant of the loop state holds after the loop. *)
Lemma for_each_invariant {A S : Type} (I : S → Prop)
    (body : S → A → result S) xs s s' :
  (∀ s x s', x ∈ xs → I s → body s x = Ok s' → I s') →
  I s → for_each body xs s = Ok s' → I s'.
Proof.
  revert s. induction xs as [|x xs IH]; intros s Hbody Hs Hrun; simpl in *.
  - by inv_ok.
  - inv_ok. eapply IH; [|eapply Hbody; [left|done..]|done].
    intros ????; apply Hbody. by right.
Qed.

Lemma map_result_Ok {A B : Type} (f : A → result B) xs ys :
  map_result f xs = Ok ys ↔ Forall2 (λ x y, f x = Ok y) xs ys.
Proof.
  revert ys. induction xs as [|x xs IH]; intros ys; simpl.
  - split; [intros [= <-]; constructor | by inversion 1].
  - split.
    + intros Hrun. inv_ok. constructor; [done|]. by apply IH.
    + inversion 1 as [|? y ? ys' Hx Hxs]; subst. rewrite Hx. simpl.
      apply IH in Hxs. by rewrite Hxs.
Qed.

Lemma map_result_total {A B : Type} (f : A → B) xs :
  map_result (λ x, Ok (f x)) xs = Ok (f <$> xs).
Proof. induction xs as [|x xs IH]; simpl; [done|]. by rewrite IH. Qed.

(** ** Column Resolver *)

Lemma first_alias_Some columns aliases alias :
  first_alias columns aliases = Some alias ↔ first_present columns aliases alias.
Proof.
  induction aliases as [|a rest IH]; simpl.
  - split; [done|]. by intros (i & Hi & _).
  - case_bool_decide as Ha.
    + split.
      * intros [= <-]. exists 0%nat. repeat split; [done|]. lia.
      * intros ([|i] & Hi & Hin & Hfirst); simpl in Hi; [congruence|].
        exfalso. by apply (Hfirst 0%nat a); [lia|..].
    + rewrite IH. split.
      * intros (i & Hi & Hin & Hfirst). exists (S i). repeat split; [done..|].
        intros [|j] other Hj Hother; simpl in Hother.
        -- by injection Hother as <-.
        -- apply (Hfirst j); [lia|done].
      * intros ([|i] & Hi & Hin & Hfirst); simpl in Hi.
        -- injection Hi as ->. done.
        -- exists i. repeat split; [done..|].
           intros j other Hj Hother. apply (Hfirst (S j)); [lia|done].
Qed.

Lemma first_alias_None columns aliases :
  first_alias columns aliases = None ↔ ∀ alias, alias ∈ aliases → alias ∉ columns.
Proof.
  induction aliases as [|a rest IH]; simpl.
  - split; [|done]. intros _ alias Hin. by apply elem_of_nil in Hin.
  - case_bool_decide as Ha.
    + split; [done|]. intros Hall. exfalso. apply (Hall a); [left|done].
    + rewrite IH. split.
      * intros Hall alias [->|Hin]%elem_of_cons; auto.
      * intros Hall alias Hin. apply Hall. by right.
Qed.

Lemma resolve_lookup columns canonicals column_map canonical :
  NoDup canonicals →
  foldl (resolve_column columns) column_map canonicals !! canonical =
    if decide (canonical ∈ canonicals) then
      match first_alias columns (aliases_of canonical) with
      | Some alias => Some alias
      | None => column_map !! canonical
      end
    else column_map !! canonical.
Proof.
  intros Hnodup. revert column_map.
  induction Hnodup as [|c cs Hc Hnodup IH]; intros column_map; cbn [foldl].
  - done.
  - rewrite IH. unfold resolve_column. fold (aliases_of c).
    destruct (decide (canonical = c)) as [->|Hne].
    + rewrite decide_False by done. rewrite decide_True by left.
      destruct (first_alias columns (aliases_of c)); [|done].
      by rewrite lookup_insert_eq.
    + assert (column_map' : ∀ m : gmap string string,
        match first_alias columns (aliases_of c) with
        | Some alias => <[c:=alias]> m
        | None => m
        end !! canonical = m !! canonical).
      { intros m. destruct (first_alias columns (aliases_of c)); [|done].
        by rewrite lookup_insert_ne. }
      rewrite column_map'.
      destruct (decide (canonical ∈ cs)) as [Hin|Hnin].
      * rewrite decide_True by (by right). done.
      * rewrite decide_False; [done|]. by intros [?|?]%elem_of_cons.
Qed.

Lemma DESIRED_COLUMNS_NoDup : NoDup DESIRED_COLUMNS.
Proof. apply (bool_decide_unpack _). by vm_compute. Qed.

Lemma column_map_lookup columns canonical :
  canonical ∈ DESIRED_COLUMNS →
  foldl (resolve_column columns) ∅ DESIRED_COLUMNS !! canonical
  = first_alias columns (aliases_of canonical).
Proof.
  intros Hin. rewrite resolve_lookup by apply DESIRED_COLUMNS_NoDup.
  rewrite decide_True by done.
  by destruct (first_alias columns (aliases_of canonical)).
Qed.

(** C5. Alias resolution and the schema error: the resolver raises (a
    [ValueError], its only exception) exactly when no alias of the
    mandatory date field is a column of the header; otherwise every
    canonical field is mapped to the first of its aliases, in declared
    priority order, that the header has, and a field none of whose
    aliases is present is left out of the mapping. *)
Theorem alias_resolution (columns : list string) :
  (determine_available_columns columns = Raise ValueError
     ↔ ∀ alias, alias ∈ aliases_of "FL_DATE" → alias ∉ columns)
  ∧ (∀ e, determine_available_columns columns = Raise e → e = ValueError)
  ∧ (∀ usecols column_map,
       determine_available_columns columns = Ok (usecols, column_map) →
       ∀ canonical, canonical ∈ DESIRED_COLUMNS →
         (∀ alias, column_map !! canonical = Some alias
                   ↔ first_present columns (aliases_of canonical) alias)
         ∧ (column_map !! canonical = None
              ↔ ∀ alias, alias ∈ aliases_of canonical → alias ∉ columns)).
Proof.
  unfold determine_available_columns.
  assert (Hdate : "FL_DATE" ∈ DESIRED_COLUMNS) by (by left).
  pose proof (column_map_lookup columns "FL_DATE" Hdate) as Hlook.
  split; [|split].
  - rewrite <- first_alias_None, <- Hlook.
    case_bool_decide as Hdom; rewrite elem_of_dom in Hdom.
    + split; [done|]. intros Hnone. rewrite Hnone in Hdom. by destruct Hdom.
    + split; [|done]. intros _. by apply eq_None_not_Some.
  - intros e. case_bool_decide; [done|]. by intros [= <-].
  - intros usecols column_map. case_bool_decide; [|done].
    intros Heq canonical Hin.
    assert (column_map = foldl (resolve_column columns) ∅ DESIRED_COLUMNS)
      as -> by congruence.
    rewrite column_map_lookup by done.
    split; [intros alias; apply first_alias_Some|apply first_alias_None].
Qed.

(** The resolver on a header of legacy names only. *)
Lemma alias_resolution_witness :
  determine_available_columns
    ["FlightDate"; "Origin"; "ArrDelayMinutes"; "ArrDelay"] = Raise ValueError
  ↔ ∀ alias, alias ∈ aliases_of "FL_DATE" →
             alias ∉ ["FlightDate"; "Origin"; "ArrDelayMinutes"; "ArrDelay"].
Proof.
  exact (proj1 (alias_resolution
           ["FlightDate"; "Origin"; "ArrDelayMinutes"; "ArrDelay"])).
Defined.

(** ** binary64 facts *)

Section Rounding.
Variables prec emax : Z.







End Rounding.




Lemma div_nan_r x : F64.div x F64.nan = F64.nan.
Proof. by destruct x. Qed.

Lemma sub_nan_r x : F64.sub x F64.nan = F64.nan.
Proof. by destruct x. Qed.


(** ** Flag normalisation *)


Section Flags.
Context `{Pandas}.




End Flags.



(** ** Metric enrichment *)

Lemma cell_insert name c v (row : gmap string Value) :
  cell c (<[name := v]> row) = if decide (name = c) then v else cell c row.
Proof.
  unfold cell. rewrite lookup_insert. by case_decide.
Qed.

Lemma cell_insert_ne name c v (row : gmap string Value) :
  name ≠ c → cell c (<[name := v]> row) = cell c row.
Proof. intros. rewrite cell_insert. by rewrite decide_False. Qed.

Lemma has_col_set_col df name series c :
  has_col (set_col df name series) c = has_col df c || bool_decide (c = name).
Proof.
  unfold set_col. unfold has_col. simpl. rewrite <- bool_decide_or.
  destruct (decide (name ∈ df_columns df)) as [Hin|Hnin].
  - rewrite (bool_decide_eq_true_2 _ Hin). apply bool_decide_ext.
    split; [by left|]. by intros [?| ->].
  - rewrite (bool_decide_eq_false_2 _ Hnin). apply bool_decide_ext.
    rewrite elem_of_app, list_elem_of_singleton. done.
Qed.

Lemma Forall2_diag {A : Type} (R : A → A → Prop) (l : list A) :
  Forall2 R l l → Forall (λ x, R x x) l.
Proof.
  induction l as [|x l IH]; [constructor|].
  inversion 1; subst. constructor; auto.
Qed.

Lemma Forall_exists_Forall2 {A B : Type} (R : A → B → Prop) (l : list A) :
  Forall (λ x, ∃ y, R x y) l → ∃ k, Forall2 R l k.
Proof.
  induction 1 as [|x l [y Hy] _ [k Hk]].
  - exists []. constructor.
  - exists (y :: k). by constructor.
Qed.

Lemma Forall2_zip_with_split {A B C D : Type} (P : A → B → Prop)
    (Q : A → C → Prop) (f : C → B → D) (xs : list A) (out : list D) :
  (∃ bs cs, Forall2 P xs bs ∧ Forall2 Q xs cs ∧ out = zip_with f cs bs)
  ↔ Forall2 (λ x o, ∃ b c, P x b ∧ Q x c ∧ o = f c b) xs out.
Proof.
  split.
  - intros (bs & cs & HP & HQ & ->). revert cs HQ.
    induction HP as [|x b xs bs Hb HP IH]; intros cs HQ;
      inversion HQ as [|? c ? cs' Hc HQ']; subst; simpl; constructor; eauto.
  - induction 1 as [|x o xs out (b & c & Hb & Hc & ->) _ (bs & cs & HP & HQ & ->)].
    + exists [], []. repeat split; constructor.
    + exists (b :: bs), (c :: cs). repeat split; by constructor.
Qed.

Lemma safe_divide_rows num den rows out :
  safe_divide (cell num <$> rows) (cell den <$> rows) = Ok out
  ↔ Forall2 (λ row q, quotient num den row = Ok q) rows out.
Proof.
  unfold safe_divide. split.
  - intros Hrun. apply bind_Ok in Hrun as (ds & Hds & Hrun).
    apply bind_Ok in Hrun as (ns & Hns & Hout). apply Ok_inj in Hout as <-.
    apply map_result_Ok, Forall2_fmap_l in Hds.
    apply map_result_Ok, Forall2_fmap_l in Hns.
    pose proof (proj1 (Forall2_zip_with_split _ _ F64.div rows _)
      (ex_intro _ ds (ex_intro _ ns (conj Hds (conj Hns eq_refl))))) as Hzip.
    eapply Forall2_impl; [exact Hzip|].
    intros row q (d & n & Hd & Hn & ->). simpl in Hd, Hn.
    {
      apply fmap_Ok in Hd as (d0 & Hd & ->). unfold quotient. by rewrite Hd, Hn. }
  - intros Hrows.
    assert (Hsplit : Forall2 (λ row q, ∃ d n,
              replace_zero_nan <$> as_float (cell den row) = Ok d
              ∧ as_float (cell num row) = Ok n ∧ q = F64.div n d) rows out).
    { eapply Forall2_impl; [exact Hrows|]. intros row q Hq. unfold quotient in Hq.
      inv_ok. exists (replace_zero_nan a), a0. repeat split; [|done]. by rewrite Ha. }
    apply Forall2_zip_with_split in Hsplit as (ds & ns & Hds & Hns & ->).
    apply bind_Ok. exists ds. split; [by apply map_result_Ok, Forall2_fmap_l|].
    apply bind_Ok. exists ns. split; [by apply map_result_Ok, Forall2_fmap_l|done].
Qed.

Lemma derive_Ok name num den post X Y :
  derive name num den post X = Ok Y
  ↔ (active num den X = false ∧ Y = X)
    ∨ (active num den X = true
       ∧ ∃ qs, Forall2 (λ row q, quotient num den row = Ok q) (df_rows X) qs
               ∧ Y = set_col X name (VFloat ∘ post <$> qs)).
Proof.
  unfold derive, active.
  destruct (has_col X num) eqn:Hnum, (has_col X den) eqn:Hden; simpl;
    try (split; [intros ->%Ok_inj; by left|by intros [[_ ->]|[[=] _]]]).
  unfold get_col. rewrite Hnum, Hden. simpl. rewrite bind_Ok.
  setoid_rewrite safe_divide_rows. split.
  - intros (qs & Hqs & <-%Ok_inj). right. eauto.
  - intros [[[=] _]|(_ & qs & Hqs & ->)]. eauto.
Qed.

Lemma quotient_insert name num den v row :
  name ≠ num → name ≠ den →
  quotient num den (<[name := v]> row) = quotient num den row.
Proof. intros. unfold quotient. by rewrite !cell_insert_ne. Qed.

Lemma set_col_rows_Forall2 X name (f : float → Value) qs
    (P : gmap string Value → float → Prop) :
  Forall2 P (df_rows X) qs →
  Forall2 (λ row row', ∃ q, P row q ∧ row' = <[name := f q]> row)
          (df_rows X) (df_rows (set_col X name (f <$> qs))).
Proof.
  simpl. induction 1; simpl; constructor; eauto.
Qed.

(** What a successful [derive] does to the rows and the columns. *)
Lemma derive_rows name num den post X Y :
  derive name num den post X = Ok Y →
  (active num den X = false ∧ Y = X)
  ∨ (active num den X = true
     ∧ has_col Y name = true
     ∧ (∀ c, has_col Y c = has_col X c || bool_decide (c = name))
     ∧ Forall2 (λ row row', ∃ q, quotient num den row = Ok q
                               ∧ row' = <[name := VFloat (post q)]> row)
               (df_rows X) (df_rows Y)).
Proof.
  intros [?|(Hact & qs & Hqs & ->)]%derive_Ok; [by left|right].
  split; [done|]. split; [|split].
  - rewrite has_col_set_col, bool_decide_eq_true_2 by done. apply orb_true_r.
  - intros c. apply has_col_set_col.
  - by apply (set_col_rows_Forall2 X name (VFloat ∘ post) qs).
Qed.

Lemma zip_with_insert_id name (f : float → Value)
    (rows : list (gmap string Value)) qs :
  Forall2 (λ row q, row !! name = Some (f q)) rows qs →
  zip_with (λ row v, <[name := v]> row) rows (f <$> qs) = rows.
Proof.
  induction 1 as [|row q rows qs Hq _ IH]; simpl; [done|].
  fold (fmap (M := list) f qs). by rewrite IH, insert_id.
Qed.

(** [derive] leaves a frame alone whose rows are already enriched. *)
Lemma derive_stable name num den post X :
  has_col X name = true → Forall (enriched name num den post) (df_rows X) →
  derive name num den post X = Ok X.
Proof.
  intros Hname Hrows. apply derive_Ok.
  destruct (active num den X) eqn:Hact; [right|by left]. split; [done|].
  destruct (Forall_exists_Forall2 _ _ Hrows) as [qs Hqs]. exists qs. split.
  - eapply Forall2_impl; [exact Hqs|]. by intros row q [? _].
  - destruct X as [columns rows]. unfold set_col. simpl in *.
    rewrite Hname. f_equal. symmetry.
    apply (zip_with_insert_id name (VFloat ∘ post)).
    eapply Forall2_impl; [exact Hqs|]. by intros row q [_ ?].
Qed.

Lemma stable_enriched name num den post X :
  derive name num den post X = Ok X → active num den X = true →
  has_col X name = true ∧ Forall (enriched name num den post) (df_rows X).
Proof.
  intros [[Hact _]|(_ & Hname & _ & Hrows)]%derive_rows Hact'; [congruence|].
  split; [done|]. apply Forall2_diag in Hrows.
  eapply Forall_impl; [exact Hrows|]. intros row (q & Hq & Hrow).
  exists q. split; [done|]. rewrite Hrow. apply lookup_insert_eq.
Qed.

(** After [derive], deriving the same field again changes nothing. *)
Lemma derive_then_stable name num den post X Y :
  name ≠ num → name ≠ den →
  derive name num den post X = Ok Y → derive name num den post Y = Ok Y.
Proof.
  intros Hnum Hden Hrun.
  destruct (derive_rows _ _ _ _ _ _ Hrun) as [[_ ->]|(Hact & Hname & Hcols & Hrows)];
    [done|].
  apply derive_stable; [done|].
  apply Forall2_Forall_r with (1 := Hrows). apply Forall_true.
  intros row row' (q & Hq & ->). exists q.
  by rewrite quotient_insert, lookup_insert_eq.
Qed.

(** A stable derived field stays stable when another field is derived. *)
Lemma stable_preserved name num den post name' num' den' post' X Y :
  name' ≠ name → name' ≠ num → name' ≠ den →
  derive name num den post X = Ok X →
  derive name' num' den' post' X = Ok Y →
  derive name num den post Y = Ok Y.
Proof.
  intros Hname Hnum Hden Hstable Hrun.
  destruct (derive_rows _ _ _ _ _ _ Hrun) as [[_ ->]|(_ & _ & Hcols & Hrows)];
    [done|].
  destruct (active num den X) eqn:Hact.
  - destruct (stable_enriched _ _ _ _ _ Hstable Hact) as [Hhas Henr].
    apply derive_stable; [by rewrite Hcols, Hhas|].
    rewrite Forall_forall in Henr.
    apply Forall2_Forall_r with (1 := Hrows). apply Forall_forall.
    intros row Hin row' (q' & _ & ->).
    destruct (Henr row Hin) as (q & Hq & Hlook). exists q.
    by rewrite quotient_insert, lookup_insert_ne.
  - apply derive_Ok. left. split; [|done]. unfold active in *.
    rewrite !Hcols, !(bool_decide_eq_false_2 (_ = name')) by done.
    by rewrite !orb_false_r.
Qed.

Lemma enrich_metrics_unfold df :
  enrich_metrics df
  = if df_empty df then Ok df else for_each derive_one derivations df.
Proof.
  unfold enrich_metrics. destruct (df_empty df); [done|]. simpl.
  unfold derive_one. simpl.
  repeat (destruct (derive _ _ _ _ _); simpl; [|done]). done.
Qed.

Lemma derived_names_fresh :
  NoDup derived_names
  ∧ Forall (λ name, (name ∉ input_names) ∧ (name ∉ METRIC_FIELDS))
           derived_names.
Proof.
  split; [apply (bool_decide_unpack _); by vm_compute|].
  apply (bool_decide_unpack _). by vm_compute.
Qed.

Lemma for_each_fixed {A S : Type} (body : S → A → result S) xs s :
  (∀ x, x ∈ xs → body s x = Ok s) → for_each body xs s = Ok s.
Proof.
  induction xs as [|x xs IH]; intros Hfix; simpl; [done|].
  rewrite Hfix by left. simpl. apply IH. intros y Hy. apply Hfix. by right.
Qed.

Lemma independent_cons d ds :
  independent (d :: ds) →
  independent ds
  ∧ d.1.1.1 ≠ d.1.1.2 ∧ d.1.1.1 ≠ d.1.2
  ∧ ∀ d', d' ∈ ds →
      d'.1.1.1 ≠ d.1.1.1 ∧ d'.1.1.1 ≠ d.1.1.2 ∧ d'.1.1.1 ≠ d.1.2.
Proof.
  intros [Hnodup Hin]. rewrite fmap_cons in Hnodup.
  apply NoDup_cons in Hnodup as [Hd Hnodup]. split; [split|split; [|split]].
  - done.
  - intros d1 d2 H1 H2. apply Hin; by right.
  - apply Hin; left.
  - apply Hin; left.
  - intros d' Hd'. split; [|apply Hin; [by right|left]].
    intros Heq. apply Hd. rewrite <- Heq. apply list_elem_of_fmap. eauto.
Qed.

Lemma derivations_independent : independent derivations.
Proof.
  split; [apply (bool_decide_unpack _); by vm_compute|].
  intros d d' Hd Hd'.
  repeat (apply elem_of_cons in Hd as [->|Hd]);
    [..|by apply elem_of_nil in Hd];
    repeat (apply elem_of_cons in Hd' as [->|Hd']);
    try (by apply elem_of_nil in Hd'); by split.
Qed.

(** Every field derived along the chain is stable in the final frame. *)
Lemma chain_stable ds X Y :
  independent ds → for_each derive_one ds X = Ok Y →
  ∀ d, d ∈ ds → derive_one Y d = Ok Y.
Proof.
  revert X. induction ds as [|d ds IH]; intros X Hind Hrun d0 Hd0.
  { by apply elem_of_nil in Hd0. }
  apply independent_cons in Hind as (Hind & Hnum & Hden & Hrest).
  simpl in Hrun. apply bind_Ok in Hrun as (X1 & Hstep & Hrun).
  apply elem_of_cons in Hd0 as [->|Hd0]; [|by eapply IH].
  eapply (for_each_invariant (λ Z, derive_one Z d = Ok Z)); [| |exact Hrun].
  - intros Z d' Z' Hd' HZ Hstep'. destruct (Hrest d' Hd') as (? & ? & ?).
    by eapply stable_preserved.
  - by eapply derive_then_stable.
Qed.

(** The chain touches the derived fields only and keeps every column. *)
Lemma chain_rows ds X Y :
  for_each derive_one ds X = Ok Y →
  (∀ c, has_col X c = true → has_col Y c = true)
  ∧ Forall2 (λ row row', ∀ c, c ∉ (λ d, d.1.1.1) <$> ds → row' !! c = row !! c)
            (df_rows X) (df_rows Y).
Proof.
  revert X. induction ds as [|d ds IH]; intros X Hrun; simpl in Hrun.
  - apply Ok_inj in Hrun as <-. split; [done|]. by apply Forall_Forall2_diag, Forall_true.
  - apply bind_Ok in Hrun as (X1 & Hstep & Hrun).
    destruct (IH _ Hrun) as [Hcols Hrows].
    destruct (derive_rows _ _ _ _ _ _ Hstep) as [[_ ->]|(_ & _ & Hcols1 & Hrows1)].
    + split; [done|]. eapply Forall2_impl; [exact Hrows|].
      intros row row' Hsame c Hc. apply Hsame. intros Hin. apply Hc. by right.
    + split.
      * intros c Hc. apply Hcols. by rewrite Hcols1, Hc.
      * eapply Forall2_trans; [|exact Hrows1|exact Hrows].
        intros row row1 row' (q & _ & ->) Hsame c Hc.
        rewrite Hsame by (intros Hin; apply Hc; by right).
        apply lookup_insert_ne. intros <-. apply Hc. left.
Qed.

(** C7. Idempotent enrichment: enriching an enriched table gives the same
    table again, on every field, and the first enrichment leaves every
    sum and count field of every row as it was. *)
Theorem enrichment_idempotent (df out : DataFrame) :
  enrich_metrics df = Ok out →
  enrich_metrics out = Ok out
  ∧ Forall2 (λ row row', ∀ field, field ∈ METRIC_FIELDS →
                           row' !! field = row !! field)
            (df_rows df) (df_rows out).
Proof.
  rewrite !enrich_metrics_unfold. destruct (df_empty df) eqn:Hempty.
  - intros <-%Ok_inj. rewrite Hempty. split; [done|].
    by apply Forall_Forall2_diag, Forall_true.
  - intros Hrun. split.
    + destruct (df_empty out); [done|]. apply for_each_fixed.
      eapply chain_stable; [apply derivations_independent|exact Hrun].
    + destruct (chain_rows _ _ _ Hrun) as [_ Hrows].
      eapply Forall2_impl; [exact Hrows|]. intros row row' Hsame field Hfield.
      apply Hsame. fold derived_names. intros Hin.
      destruct derived_names_fresh as [_ Hfresh]. rewrite Forall_forall in Hfresh.
      by destruct (Hfresh field Hin).
Qed.

Lemma Forall2_and_Forall_r {A B : Type} (P : A → B → Prop) (Q : B → Prop) l k :
  Forall2 P l k → Forall Q k → Forall2 (λ x y, P x y ∧ Q y) l k.
Proof.
  induction 1 as [|x y l k Hxy _ IH]; intros HQ; [constructor|].
  apply Forall_cons in HQ as [Hy HQ]. constructor; auto.
Qed.

Lemma quotient_same num den (row row' : gmap string Value) :
  row' !! num = row !! num → row' !! den = row !! den →
  quotient num den row' = quotient num den row.
Proof. intros Hnum Hden. unfold quotient, cell. by rewrite Hnum, Hden. Qed.

(** Every row of an enriched frame carries each derived field, computed
    from the sums and counts of the row it comes from. *)
Lemma enrich_row_spec X Y :
  for_each derive_one derivations X = Ok Y →
  (∀ c, c ∈ input_names → has_col X c = true) →
  Forall2 (λ row row', ∀ d, d ∈ derivations →
             ∃ q, quotient d.1.1.2 d.1.2 row = Ok q
                  ∧ row' !! d.1.1.1 = Some (VFloat (d.2 q)))
          (df_rows X) (df_rows Y).
Proof.
  intros Hrun Hinputs.
  destruct (chain_rows _ _ _ Hrun) as [Hcols Hrows].
  assert (Henr : Forall (λ row', ∀ d, d ∈ derivations →
            enriched d.1.1.1 d.1.1.2 d.1.2 d.2 row') (df_rows Y)).
  { apply Forall_forall. intros row' Hin d Hd.
    pose proof (chain_stable _ _ _ derivations_independent Hrun d Hd) as Hstable.
    apply stable_enriched in Hstable as [_ Hall].
    - rewrite Forall_forall in Hall. by apply Hall.
    - unfold active.
      assert (Hboth : has_col X d.1.1.2 = true ∧ has_col X d.1.2 = true).
      { split; apply Hinputs, list_elem_of_bind; exists d; (split; [in_list|done]). }
      destruct Hboth as [Hn Hdn]. by rewrite (Hcols _ Hn), (Hcols _ Hdn). }
  eapply Forall2_impl; [exact (Forall2_and_Forall_r _ _ _ _ Hrows Henr)|].
  intros row row' [Hsame Hrow'] d Hd.
  destruct (Hrow' d Hd) as (q & Hq & Hlook). exists q. split; [|done].
  rewrite <- Hq. symmetry.
  destruct derived_names_fresh as [_ Hfresh]. rewrite Forall_forall in Hfresh.
  apply quotient_same; apply Hsame; fold derived_names; intros Hin;
    destruct (Hfresh _ Hin) as [Hni _]; apply Hni;
    apply list_elem_of_bind; exists d; (split; [in_list|done]).
Qed.

Lemma chain_total ds X :
  (∀ d, d ∈ ds →
     d.1.1.2 ∈ METRIC_FIELDS ∧ d.1.2 ∈ METRIC_FIELDS ∧ d.1.1.1 ∉ METRIC_FIELDS) →
  Forall numeric_row (df_rows X) →
  ∃ Y, for_each derive_one ds X = Ok Y.
Proof.
  revert X. induction ds as [|d ds IH]; intros X Hds Hnum; simpl; [eauto|].
  destruct (Hds d) as (Hn & Hd & Hname); [left|].
  assert (Hstep : ∃ X1, derive_one X d = Ok X1 ∧ Forall numeric_row (df_rows X1)).
  { unfold derive_one. destruct (active d.1.1.2 d.1.2 X) eqn:Hact.
    - assert (Hqs : ∃ qs, Forall2 (λ row q, quotient d.1.1.2 d.1.2 row = Ok q)
                            (df_rows X) qs).
      { apply Forall_exists_Forall2. eapply Forall_impl; [exact Hnum|].
        intros row Hrow. unfold quotient.
        destruct (Hrow _ Hn) as [n ->], (Hrow _ Hd) as [x ->]. simpl. eauto. }
      destruct Hqs as [qs Hqs]. eexists. split.
      + apply derive_Ok. right. eauto.
      + pose proof (set_col_rows_Forall2 X d.1.1.1 (VFloat ∘ d.2) qs _ Hqs) as Hrel.
        apply Forall2_Forall_r with (1 := Hrel).
        eapply Forall_impl; [exact Hnum|].
        intros row Hrow row' (q & _ & ->) field Hfield.
        rewrite cell_insert_ne by (by intros <-). by apply Hrow.
    - exists X. split; [|done]. apply derive_Ok. by left. }
  destruct Hstep as (X1 & -> & Hnum1). simpl. apply IH; [|done].
  intros d' Hd'. apply Hds. by right.
Qed.

Lemma derivations_on_metrics d :
  d ∈ derivations →
  d.1.1.2 ∈ METRIC_FIELDS ∧ d.1.2 ∈ METRIC_FIELDS ∧ d.1.1.1 ∉ METRIC_FIELDS.
Proof.
  intros Hd. repeat (apply elem_of_cons in Hd as [->|Hd]);
    [..|by apply elem_of_nil in Hd]; simpl;
    (split; [|split]); apply (bool_decide_unpack _); by vm_compute.
Qed.

(** The metric cells of a finalized row are the values of the record. *)
Lemma finalized_cell (stats : gmap string Num) key_names (keys : list Value) field :
  field ∉ key_names →
  cell field ((num_value <$> stats) ∪ list_to_map (zip key_names keys))
  = from_option num_value VNull (stats !! field).
Proof.
  intros Hfield. unfold cell. rewrite lookup_union, lookup_fmap.
  assert (Hnone : (list_to_map (zip key_names keys) : gmap string Value) !! field = None).
  { apply not_elem_of_list_to_map_1. intros Hin. apply Hfield.
    apply list_elem_of_fmap in Hin as ([name v] & -> & Hin).
    by apply elem_of_zip_l in Hin. }
  rewrite Hnone. by destruct (stats !! field).
Qed.

Lemma quotient_zero_denominator num den row q :
  quotient num den row = Ok q → cell den row = VInt 0 → q = F64.nan.
Proof.
  unfold quotient. intros Hq Hden. rewrite Hden in Hq. simpl in Hq.
  inv_ok. apply div_nan_r.
Qed.

(** C3. Zero-denominator safety. Enriching a finalized table never
    raises, and for every group: if the count of non-missing arrival
    delays is zero, the average arrival delay and the on-time rate are
    NaN (pandas' null, not zero); likewise the average departure delay
    and the departure delay rate when the departure count is zero, and
    the cancellation and diversion rates when there are no flights. The
    on-time rate is [1 - late / count] over the arrival-delay count, not
    over the flights. *)
Theorem zero_denominator_safety
    (table : gmap (list Value) (gmap string Num)) (key_names : list string) :
  (∀ name, name ∈ key_names → name ∉ METRIC_FIELDS) →
  ∃ out,
    enrich_metrics (finalize_table table key_names) = Ok out
    ∧ Forall2 (λ (group : list Value * gmap string Num) row,
         (group.2 !! "arr_delay_count" = Some (NInt 0) →
            row !! "avg_arr_delay" = Some (VFloat F64.nan)
            ∧ row !! "on_time_rate" = Some (VFloat F64.nan))
         ∧ (group.2 !! "dep_delay_count" = Some (NInt 0) →
              row !! "avg_dep_delay" = Some (VFloat F64.nan)
              ∧ row !! "departure_delay_rate" = Some (VFloat F64.nan))
         ∧ (group.2 !! "flights" = Some (NInt 0) →
              row !! "cancellation_rate" = Some (VFloat F64.nan)
              ∧ row !! "diversion_rate" = Some (VFloat F64.nan))
         ∧ (∀ late count,
              group.2 !! "arr_delay_over_15" = Some (NInt late) →
              group.2 !! "arr_delay_count" = Some (NInt count) →
              row !! "on_time_rate"
              = Some (VFloat (F64.sub F64.one
                        (F64.div (F64.of_Z late)
                                 (replace_zero_nan (F64.of_Z count)))))))
        (map_to_list table) (df_rows out).
Proof.
  intros Hkeys.
  assert (Hcell : ∀ group field, field ∈ METRIC_FIELDS →
    cell field ((num_value <$> group.2) ∪ list_to_map (zip key_names group.1))
    = from_option num_value VNull ((group.2 : gmap string Num) !! field)).
  { intros [keys stats] field Hfield. apply finalized_cell.
    intros Hin. by apply (Hkeys field). }
  rewrite enrich_metrics_unfold.
  destruct (df_empty (finalize_table table key_names)) eqn:Hempty.
  { exists (finalize_table table key_names). split; [done|].
    unfold df_empty, finalize_table in *. simpl in *.
    destruct (key_names ++ METRIC_FIELDS)%list eqn:Hcols.
    { by apply app_eq_nil in Hcols as [_ ?]. }
    destruct (map_to_list table); simpl in *; [constructor|done]. }
  destruct (chain_total derivations (finalize_table table key_names))
    as [out Hrun].
  { apply derivations_on_metrics. }
  { apply Forall_forall. intros row Hin field Hfield. simpl in Hin.
    apply list_elem_of_fmap in Hin as (group & -> & _).
    rewrite Hcell by done.
    destruct (group.2 !! field) as [[n|x]|]; simpl; eauto. }
  exists out. split; [done|].
  assert (Hinputs : ∀ c, c ∈ input_names →
            has_col (finalize_table table key_names) c = true).
  { intros c Hc. unfold has_col. simpl. apply bool_decide_eq_true_2.
    apply elem_of_app. right. revert c Hc. apply Forall_forall.
    apply (bool_decide_unpack _). by vm_compute. }
  pose proof (enrich_row_spec _ _ Hrun Hinputs) as Hspec. simpl in Hspec.
  apply Forall2_fmap_l in Hspec.
  eapply Forall2_impl; [exact Hspec|]. clear Hspec.
  intros group row Hrow. simpl in Hrow.
  assert (Hzero : ∀ d field, d ∈ derivations → d.1.2 = field →
    field ∈ METRIC_FIELDS → group.2 !! field = Some (NInt 0) →
    row !! d.1.1.1 = Some (VFloat (d.2 F64.nan))).
  { intros d field Hd Hden Hfield Hlook.
    destruct (Hrow d Hd) as (q & Hq & ->). do 3 f_equal.
    eapply quotient_zero_denominator; [exact Hq|].
    rewrite Hden, Hcell by done. by rewrite Hlook. }
  assert (Hmetric : ∀ f, bool_decide (f ∈ METRIC_FIELDS) = true → f ∈ METRIC_FIELDS)
    by (intros f; apply bool_decide_eq_true_1).
  split; [|split; [|split]].
  - intros Hlook. split.
    + apply (Hzero ("avg_arr_delay", "arr_delay_sum", "arr_delay_count", id)
               "arr_delay_count"); [in_list|done|by apply Hmetric|done].
    + apply (Hzero ("on_time_rate", "arr_delay_over_15", "arr_delay_count",
                    F64.sub F64.one) "arr_delay_count");
        [in_list|done|by apply Hmetric|done].
  - intros Hlook. split.
    + apply (Hzero ("avg_dep_delay", "dep_delay_sum", "dep_delay_count", id)
               "dep_delay_count"); [in_list|done|by apply Hmetric|done].
    + apply (Hzero ("departure_delay_rate", "dep_delay_over_15", "dep_delay_count",
                    id) "dep_delay_count"); [in_list|done|by apply Hmetric|done].
  - intros Hlook. split.
    + apply (Hzero ("cancellation_rate", "cancelled", "flights", id) "flights");
        [in_list|done|by apply Hmetric|done].
    + apply (Hzero ("diversion_rate", "diverted", "flights", id) "flights");
        [in_list|done|by apply Hmetric|done].
  - intros late count Hlate Hcount.
    destruct (Hrow ("on_time_rate", "arr_delay_over_15", "arr_delay_count",
                    F64.sub F64.one)) as (q & Hq & Hlook); [in_list|].
    simpl in Hq, Hlook. rewrite Hlook. unfold quotient in Hq.
    rewrite !Hcell in Hq by (by apply Hmetric). rewrite Hlate, Hcount in Hq.
    simpl in Hq. apply Ok_inj in Hq as <-. done.
Qed.

(** ** Chunk normalisation *)

Lemma filter_fmap {A B : Type} (f : A → B) (P : B → Prop)
    `{!∀ y, Decision (P y)} (l : list A) :
  filter P (f <$> l) = f <$> filter (λ x, P (f x)) l.
Proof.
  induction l as [|x l IH]; [done|]. rewrite fmap_cons, !filter_cons, IH.
  by destruct (decide (P (f x))).
Qed.

(** Assigning a column computed row by row is a map over the rows. *)
Lemma set_col_fmap X name (g : gmap string Value → Value) :
  df_rows (set_col X name (g <$> df_rows X))
  = (λ row, <[name := g row]> row) <$> df_rows X.
Proof. simpl. by rewrite zip_with_fmap_r, zip_with_diag. Qed.

Section NormalizerFacts.
Context `{Pandas}.

Lemma isna_to_datetime v : isna (to_datetime v) = false ↔ is_Some (parse_datetime v).
Proof.
  unfold to_datetime. destruct (parse_datetime v); simpl.
  - split; [eauto|done].
  - split; [done|]. by intros [? [=]].
Qed.

Lemma dated_rows chunk :
  df_rows (dated chunk) = date_row <$> filter parsed (df_rows chunk).
Proof.
  unfold dated, dropna. cbn [df_rows].
  rewrite <- list_fmap_compose.
  rewrite (set_col_fmap chunk "FL_DATE" (to_datetime ∘ cell "FL_DATE")).
  rewrite filter_fmap. f_equal. apply list_filter_iff. intros row.
  rewrite cell_insert, decide_True by done. apply isna_to_datetime.
Qed.

Lemma dated_columns chunk :
  has_col chunk "FL_DATE" = true → df_columns (dated chunk) = df_columns chunk.
Proof. intros Hcol. unfold dated, dropna, set_col. simpl. by rewrite Hcol. Qed.


Lemma preprocess_chunk_dated chunk :
  preprocess_chunk chunk
  = if has_col chunk "FL_DATE" then
      let chunk := dated chunk in
      series ← get_col chunk "FL_DATE";
      let chunk := set_col chunk "month" (to_period_M <$> series) in
      chunk ← when_col "ARR_DELAY"
                (normalize_delay "ARR_DELAY" "arr_delay_over_15") chunk;
      chunk ← when_col "DEP_DELAY"
                (normalize_delay "DEP_DELAY" "dep_delay_over_15") chunk;
      chunk ← when_col "CANCELLED" (normalize_flag_col "CANCELLED") chunk;
      chunk ← when_col "DIVERTED" (normalize_flag_col "DIVERTED") chunk;
      for_each normalize_cause (fst <$> DELAY_CAUSE_COLUMNS) chunk
    else Raise KeyError.
Proof.
  unfold preprocess_chunk.
  assert (Hget : get_col chunk "FL_DATE"
    = if has_col chunk "FL_DATE" then Ok (cell "FL_DATE" <$> df_rows chunk)
      else Raise KeyError) by done.
  rewrite Hget. by destruct (has_col chunk "FL_DATE").
Qed.


End NormalizerFacts.

Lemma lookup_put_ne on name v row c :
  name ≠ c → put on name v row !! c = row !! c.
Proof. intros. unfold put. destruct on; [|done]. by apply lookup_insert_ne. Qed.

Lemma cell_put_ne on name v row c :
  name ≠ c → cell c (put on name v row) = cell c row.
Proof. intros. unfold cell. by rewrite lookup_put_ne. Qed.

Lemma lookup_put_eq name v row : put true name v row !! name = Some v.
Proof. apply lookup_insert_eq. Qed.

Lemma get_col_present X name :
  has_col X name = true → get_col X name = Ok (cell name <$> df_rows X).
Proof. intros Hname. unfold get_col. by rewrite Hname. Qed.

Lemma set_col_present X name series c :
  has_col X name = true → has_col (set_col X name series) c = has_col X c.
Proof.
  intros Hname. rewrite has_col_set_col. case_bool_decide as Hc; [|apply orb_false_r].
  subst. by rewrite Hname.
Qed.

Section NormalizerSteps.
Context `{Pandas}.

Lemma when_delay name ind X :
  ∃ Y, when_col name (normalize_delay name ind) X = Ok Y
       ∧ df_rows Y = delay_row (has_col X name) name ind <$> df_rows X
       ∧ ∀ c, has_col Y c
              = has_col X c || (has_col X name && bool_decide (c = ind)).
Proof.
  unfold when_col, normalize_delay.
  destruct (has_col X name) eqn:Hname.
  - rewrite (get_col_present X name) by done. cbn [mbind result_bind].
    rewrite get_col_present by (by rewrite set_col_present).
    cbn [mbind result_bind]. eexists. split; [done|]. split.
    + rewrite <- !list_fmap_compose.
      rewrite (set_col_fmap _ ind (over_15 ∘ to_numeric ∘ cell name)).
      rewrite (set_col_fmap X name (VFloat ∘ to_numeric ∘ cell name)).
      rewrite <- list_fmap_compose. apply list_fmap_ext. intros _ row _.
      unfold delay_row, put. simpl. rewrite cell_insert, decide_True by done. done.
    + intros c. rewrite has_col_set_col, set_col_present by done. done.
  - exists X. split; [done|]. split.
    + unfold delay_row, put. by rewrite list_fmap_id.
    + intros c. by rewrite orb_false_r.
Qed.


Lemma cause_step X cause_col :
  ∃ Y, normalize_cause X cause_col = Ok Y
       ∧ df_rows Y = (λ row, cause_row X row cause_col) <$> df_rows X
       ∧ ∀ c, has_col Y c = has_col X c.
Proof.
  unfold normalize_cause, when_col, cause_row.
  destruct (has_col X cause_col) eqn:Hcol.
  - rewrite get_col_present by done. cbn [mbind result_bind].
    eexists. split; [done|]. split.
    + rewrite <- !list_fmap_compose.
      by rewrite (set_col_fmap X cause_col
                    (VFloat ∘ fillna F64.zero ∘ to_numeric ∘ cell cause_col)).
    + intros c. by apply set_col_present.
  - exists X. split; [done|]. split; [|done]. unfold put. by rewrite list_fmap_id.
Qed.

Lemma causes_steps chunk causes X :
  (∀ c, c ∈ causes → has_col X c = has_col chunk c) →
  ∃ Y, for_each normalize_cause causes X = Ok Y
       ∧ df_rows Y = (λ row, foldl (cause_row chunk) row causes) <$> df_rows X
       ∧ ∀ c, has_col Y c = has_col X c.
Proof.
  revert X. induction causes as [|cause causes IH]; intros X Hcols; simpl.
  - exists X. split; [done|]. split; [|done]. by rewrite list_fmap_id.
  - destruct (cause_step X cause) as (X1 & -> & Hrows1 & Hcols1). simpl.
    destruct (IH X1) as (Y & -> & Hrows & HcolsY).
    { intros c Hc. rewrite Hcols1. apply Hcols. by right. }
    exists Y. split; [done|]. split.
    + rewrite Hrows, Hrows1, <- list_fmap_compose. apply list_fmap_ext.
      intros _ row _. simpl. unfold cause_row at 2 4. by rewrite Hcols by left.
    + intros c. by rewrite HcolsY, Hcols1.
Qed.


End NormalizerSteps.

(** ** The threshold test *)




Section Threshold.
Context `{Pandas}.


End Threshold.

Section NormalizedRows.
Context `{Pandas}.

(** Look a column up in a row built by [norm_row]: skip the assignments
    to other columns. *)
Ltac skip_puts :=
  repeat first
    [ rewrite lookup_put_ne by discriminate
    | rewrite lookup_insert_ne by discriminate
    | rewrite cell_put_ne by discriminate
    | rewrite cell_insert_ne by discriminate ].


Lemma norm_row_delay chunk cancelled diverted raw name ind :
  (name, ind) ∈ [("ARR_DELAY", "arr_delay_over_15");
                 ("DEP_DELAY", "dep_delay_over_15")] →
  has_col chunk name = true →
  norm_row chunk cancelled diverted raw !! name
    = Some (VFloat (to_numeric (cell name raw)))
  ∧ norm_row chunk cancelled diverted raw !! ind
    = Some (over_15 (to_numeric (cell name raw))).
Proof.
  intros Hin Hcol.
  repeat (apply elem_of_cons in Hin as [[= -> ->]|Hin]);
    [..|by apply elem_of_nil in Hin];
    unfold norm_row, cause_row, delay_row, date_row; simpl foldl;
    rewrite !Hcol; split; skip_puts; rewrite lookup_put_eq; skip_puts; done.
Qed.

Lemma foldl_cause_row_other chunk causes row c :
  c ∉ causes → foldl (cause_row chunk) row causes !! c = row !! c.
Proof.
  revert row. induction causes as [|cause causes IH]; intros row Hc; [done|].
  cbn [foldl]. rewrite IH by (intros ?; apply Hc; by right).
  apply lookup_put_ne. intros ->. apply Hc. left.
Qed.

Lemma foldl_cause_row_lookup chunk causes row c :
  NoDup causes → c ∈ causes → has_col chunk c = true →
  foldl (cause_row chunk) row causes !! c
  = Some (VFloat (fillna F64.zero (to_numeric (cell c row)))).
Proof.
  intros Hnodup. revert row.
  induction Hnodup as [|cause causes Hcause Hnodup IH]; intros row Hc Hcol.
  { by apply elem_of_nil in Hc. }
  cbn [foldl]. apply elem_of_cons in Hc as [->|Hc].
  - rewrite foldl_cause_row_other by done. unfold cause_row.
    rewrite Hcol. apply lookup_put_eq.
  - rewrite IH by done. unfold cause_row at 1.
    rewrite cell_put_ne; [done|]. by intros ->.
Qed.

Lemma cause_names_fresh :
  NoDup (fst <$> DELAY_CAUSE_COLUMNS)
  ∧ Forall (λ c, c ∉ ["FL_DATE"; "month"; "ARR_DELAY"; "arr_delay_over_15";
                      "DEP_DELAY"; "dep_delay_over_15"; "CANCELLED"; "DIVERTED"])
           (fst <$> DELAY_CAUSE_COLUMNS).
Proof. split; apply (bool_decide_unpack _); by vm_compute. Qed.

Lemma norm_row_cause chunk cancelled diverted raw cause_col :
  cause_col ∈ fst <$> DELAY_CAUSE_COLUMNS →
  has_col chunk cause_col = true →
  norm_row chunk cancelled diverted raw !! cause_col
  = Some (VFloat (fillna F64.zero (to_numeric (cell cause_col raw)))).
Proof.
  intros Hin Hcol. destruct cause_names_fresh as [Hnodup Hfresh].
  rewrite Forall_forall in Hfresh. pose proof (Hfresh _ Hin) as Hc.
  assert (Hne : ∀ name,
    name ∈ ["FL_DATE"; "month"; "ARR_DELAY"; "arr_delay_over_15";
            "DEP_DELAY"; "dep_delay_over_15"; "CANCELLED"; "DIVERTED"] →
    name ≠ cause_col) by (by intros name Hname ->).
  unfold norm_row. rewrite foldl_cause_row_lookup by done.
  unfold delay_row, date_row.
  by rewrite !cell_put_ne, !cell_insert_ne by (apply Hne; in_list).
Qed.

End NormalizedRows.

(** ** The normaliser's contract *)






Section NormalizerContract.
Context `{Pandas}.




End NormalizerContract.

(** ** Metric Records *)

Lemma metric_fields_split field :
  field ∈ METRIC_FIELDS ↔ field ∈ SUM_FIELDS ∨ field ∈ COUNT_FIELDS.
Proof.
  unfold SUM_FIELDS. rewrite elem_of_difference, elem_of_list_to_set.
  assert (Hsub : field ∈ COUNT_FIELDS → field ∈ METRIC_FIELDS).
  { unfold COUNT_FIELDS. rewrite elem_of_list_to_set. revert field.
    apply Forall_forall. apply (bool_decide_unpack _). by vm_compute. }
  destruct (decide (field ∈ COUNT_FIELDS)); naive_solver.
Qed.

Lemma count_not_sum field : field ∈ COUNT_FIELDS → field ∉ SUM_FIELDS.
Proof. unfold SUM_FIELDS. set_solver. Qed.

Lemma new_stats_lookup field :
  new_stats !! field
  = if bool_decide (field ∈ METRIC_FIELDS) then
      Some (if bool_decide (field ∈ SUM_FIELDS) then NFloat F64.zero else NInt 0)
    else None.
Proof.
  unfold new_stats.
  assert (Hgen : ∀ fields (m : gmap string Num),
    foldl (λ stats f, <[f := if bool_decide (f ∈ SUM_FIELDS)
                             then NFloat F64.zero else NInt 0]> stats) m fields
      !! field
    = if bool_decide (field ∈ fields) then
        Some (if bool_decide (field ∈ SUM_FIELDS) then NFloat F64.zero else NInt 0)
      else m !! field).
  { induction fields as [|f fields IH]; intros m; cbn [foldl].
    - rewrite bool_decide_eq_false_2; [done|]. apply not_elem_of_nil.
    - rewrite IH. destruct (decide (field ∈ fields)) as [Hin|Hnin].
      + rewrite (bool_decide_eq_true_2 (field ∈ fields)) by done.
        rewrite (bool_decide_eq_true_2 (field ∈ f :: fields)); [done|by right].
      + rewrite (bool_decide_eq_false_2 _ Hnin).
        destruct (decide (field = f)) as [->|Hne].
        * rewrite lookup_insert_eq.
          rewrite (bool_decide_eq_true_2 (f ∈ f :: fields)); [done|left].
        * rewrite lookup_insert_ne by done.
          rewrite bool_decide_eq_false_2; [done|].
          by intros [?|?]%elem_of_cons. }
  rewrite Hgen. by rewrite lookup_empty.
Qed.

Lemma new_stats_wf : wf_stats new_stats.
Proof.
  split.
  - apply set_eq. intros field. rewrite elem_of_dom, new_stats_lookup.
    rewrite elem_of_list_to_set. case_bool_decide; [split; eauto|].
    split; [by intros [? [=]]|done].
  - intros field v. rewrite new_stats_lookup.
    destruct (bool_decide (field ∈ METRIC_FIELDS)); [|discriminate].
    intros Heq. apply (inj Some) in Heq as <-. unfold typed.
    destruct (bool_decide (field ∈ SUM_FIELDS)); eauto.
Qed.

Lemma wf_stats_lookup stats field :
  wf_stats stats → is_Some (stats !! field) ↔ field ∈ METRIC_FIELDS.
Proof.
  intros [Hdom _]. by rewrite <- elem_of_dom, Hdom, elem_of_list_to_set.
Qed.

Lemma wf_stats_count stats field :
  wf_stats stats → field ∈ COUNT_FIELDS →
  stats !! field = Some (NInt (count_of stats field)).
Proof.
  intros Hwf Hfield.
  assert (Hsome : is_Some (stats !! field)).
  { apply wf_stats_lookup; [done|]. apply metric_fields_split. by right. }
  destruct Hsome as [v Hv]. unfold count_of. rewrite Hv.
  destruct Hwf as [_ Htyped]. apply Htyped in Hv as Ht. unfold typed in Ht.
  rewrite bool_decide_eq_false_2 in Ht by (by apply count_not_sum).
  by destruct Ht as [n ->].
Qed.

(** A delta of the right type for its field. *)
Lemma py_add_typed field old delta :
  typed field old → typed field delta → typed field (py_add old delta).
Proof.
  unfold typed. case_bool_decide.
  - intros [x ->] [y ->]. simpl. eauto.
  - intros [n ->] [m ->]. simpl. eauto.
Qed.

Lemma stats_add_Ok stats field delta stats' :
  stats_add stats field delta = Ok stats'
  ↔ ∃ old, stats !! field = Some old
           ∧ stats' = <[field := py_add old delta]> stats.
Proof.
  unfold stats_add, getitem. destruct (stats !! field) as [old|]; simpl.
  - split; [intros <-%Ok_inj; eauto|]. by intros (? & [= <-] & ->).
  - split; [done|]. by intros (? & [=] & _).
Qed.

Lemma stats_add_wf stats field delta stats' :
  wf_stats stats → typed field delta →
  stats_add stats field delta = Ok stats' → wf_stats stats'.
Proof.
  intros [Hdom Htyped] Hdelta (old & Hold & ->)%stats_add_Ok. split.
  - rewrite <- Hdom, dom_insert_L. apply subseteq_union_1_L.
    apply singleton_subseteq_l, elem_of_dom. eauto.
  - intros f v. rewrite lookup_insert. case_decide as Hf; [|by apply Htyped].
    subst f. intros [= <-]. apply py_add_typed; [by eapply Htyped|done].
Qed.

Lemma stats_add_count stats field delta stats' other :
  stats_add stats field delta = Ok stats' →
  count_of stats' other
  = if decide (field = other) then
      match stats !! field with
      | Some old => match py_add old delta with NInt n => n | _ => 0 end
      | None => 0
      end
    else count_of stats other.
Proof.
  intros (old & Hold & ->)%stats_add_Ok. unfold count_of.
  rewrite lookup_insert. case_decide; [|done]. by rewrite Hold.
Qed.

(** ** The additive merge *)

Lemma Zsum_app xs ys : Zsum (xs ++ ys) = Zsum xs + Zsum ys.
Proof. induction xs as [|x xs IH]; simpl; lia. Qed.


Lemma foldl_add_Zsum {A : Type} (d : A → Z) xs z :
  foldl (λ acc x, acc + d x) z xs = z + Zsum (d <$> xs).
Proof.
  revert z. induction xs as [|x xs IH]; intros z; [simpl; lia|].
  rewrite fmap_cons. cbn [foldl Zsum]. rewrite IH. lia.
Qed.

(** The loop state after a loop whose body advances a measure of it. *)
Lemma for_each_fold {A S M : Type} (I : S → Prop) (m : S → M)
    (op : M → A → M) (body : S → A → result S) xs s s' :
  (∀ s x s', x ∈ xs → I s → body s x = Ok s' → I s' ∧ m s' = op (m s) x) →
  I s → for_each body xs s = Ok s' →
  I s' ∧ m s' = foldl op (m s) xs.
Proof.
  revert s. induction xs as [|x xs IH]; intros s Hbody Hs Hrun; simpl in *.
  - apply Ok_inj in Hrun as <-. done.
  - apply bind_Ok in Hrun as (s1 & Hstep & Hrun).
    destruct (Hbody s x s1 (list_elem_of_here _ _) Hs Hstep) as [Hs1 <-].
    apply IH; [|done..]. intros ????; apply Hbody. by right.
Qed.

(** A loop returns exactly when its body does on every element, for a
    body whose success does not depend on the state. *)
Lemma for_each_is_Ok {A S : Type} (I : S → Prop) (ok : A → Prop)
    (body : S → A → result S) xs s :
  (∀ s x, I s → (∃ s', body s x = Ok s') ↔ ok x) →
  (∀ s x s', I s → body s x = Ok s' → I s') →
  I s → (∃ s', for_each body xs s = Ok s') ↔ Forall ok xs.
Proof.
  intros Hok Hinv. revert s. induction xs as [|x xs IH]; intros s Hs; simpl.
  - split; [constructor|eauto].
  - split.
    + intros [s' Hrun]. apply bind_Ok in Hrun as (s1 & Hstep & Hrun).
      constructor; [apply (Hok s); eauto|].
      apply (IH s1); eauto.
    + intros [Hx Hxs]%Forall_cons. apply (Hok s) in Hx as [s1 Hstep]; [|done].
      rewrite Hstep. simpl. apply IH; eauto.
Qed.

Lemma update_field_inv row stats field stats' :
  update_field row stats field = Ok stats' →
  (field = "flights" ∧ stats' = stats)
  ∨ (field ≠ "flights"
     ∧ ∃ value, row !! field = Some value
         ∧ ((num_isna value = true ∧ stats' = stats)
            ∨ (num_isna value = false
               ∧ ∃ delta,
                   (if bool_decide (field ∈ SUM_FIELDS)
                    then delta = NFloat (py_float value)
                    else ∃ n, py_int value = Ok n ∧ delta = NInt n)
                   ∧ stats_add stats field delta = Ok stats'))).
Proof.
  unfold update_field. case_decide as Hflights.
  { intros <-%Ok_inj. by left. }
  intros Hrun. right. split; [done|].
  apply bind_Ok in Hrun as (value & Hvalue & Hrun).
  unfold getitem in Hvalue. destruct (row !! field) as [v|] eqn:Hrow; [|done].
  apply Ok_inj in Hvalue as ->. exists value. split; [done|].
  destruct (num_isna value); [left; by apply Ok_inj in Hrun as <-|right].
  split; [done|]. case_bool_decide; [eauto|].
  apply bind_Ok in Hrun as (n & Hn & Hrun). eauto.
Qed.

Lemma typed_float field x : field ∈ SUM_FIELDS → typed field (NFloat x).
Proof. intros. unfold typed. rewrite bool_decide_eq_true_2 by done. eauto. Qed.

Lemma typed_int field n : field ∉ SUM_FIELDS → typed field (NInt n).
Proof. intros. unfold typed. rewrite bool_decide_eq_false_2 by done. eauto. Qed.

Lemma update_field_count row stats field stats' :
  wf_stats stats → update_field row stats field = Ok stats' →
  wf_stats stats'
  ∧ ∀ other, other ∈ COUNT_FIELDS →
      count_of stats' other = count_of stats other + field_delta row field other.
Proof.
  intros Hwf Hrun. unfold field_delta.
  destruct (update_field_inv _ _ _ _ Hrun)
    as [[-> ->]|(Hne & value & Hrow & [[Hna ->]|(Hna & delta & Hdelta & Hadd)])].
  - split; [done|]. intros other _.
    destruct (decide _) as [[_ Hne]|_]; [by destruct Hne|lia].
  - split; [done|]. intros other _. rewrite Hrow, Hna.
    destruct (decide _); lia.
  - rewrite Hrow, Hna. destruct (bool_decide (field ∈ SUM_FIELDS)) eqn:Hsum.
    + apply bool_decide_eq_true_1 in Hsum. subst delta.
      split; [by eapply stats_add_wf; [|apply typed_float|]|].
      intros other Hother. rewrite (stats_add_count _ _ _ _ other Hadd).
      apply count_not_sum in Hother.
      destruct (decide (field = other)) as [Heq|_];
        [exfalso; apply Hother; by rewrite <- Heq|].
      destruct (decide _) as [[Heq _]|_];
        [exfalso; apply Hother; by rewrite <- Heq|lia].
    + apply bool_decide_eq_false_1 in Hsum. destruct Hdelta as (n & Hn & ->).
      split; [by eapply stats_add_wf; [|apply typed_int|]|].
      intros other Hother. rewrite (stats_add_count _ _ _ _ other Hadd), Hn.
      destruct (decide (field = other)) as [->|Hother'].
      * destruct (decide _) as [_|Hno]; [|destruct Hno; by split].
        rewrite wf_stats_count by done. simpl. done.
      * destruct (decide _) as [[Heq _]|_]; [by destruct Hother'|lia].
Qed.

Lemma update_field_ok row stats field :
  wf_stats stats →
  (∃ stats', update_field row stats field = Ok stats') ↔ field_ok row field.
Proof.
  intros Hwf. unfold field_ok, update_field. case_decide as Hflights.
  { split; [by left|eauto]. }
  unfold getitem at 1. destruct (row !! field) as [value|]; simpl.
  2:{ split; [by intros [? ?]|]. intros [?|(? & [=] & _)]; done. }
  destruct (num_isna value) eqn:Hna.
  { split; [right|]; eauto. }
  assert (Hadd : ∀ delta,
    (∃ stats', stats_add stats field delta = Ok stats') ↔ field ∈ METRIC_FIELDS).
  { intros delta. rewrite <- (wf_stats_lookup stats field Hwf).
    setoid_rewrite stats_add_Ok. split.
    - intros (? & old & -> & _). eauto.
    - intros [old ->]. eauto. }
  assert (Hinv : ∀ Q : Num → Prop,
    (field = "flights"
     ∨ ∃ v, Some value = Some v ∧ (num_isna v = true ∨ Q v)) → Q value).
  { intros Q [Heq|(v & Hv & Hcase)]; [by destruct Hflights|].
    apply (inj Some) in Hv as <-. destruct Hcase as [Hna'|HQ]; [|done].
    rewrite Hna in Hna'. discriminate. }
  case_bool_decide as Hsum.
  - rewrite Hadd. split.
    + intros Hm. right. exists value. split; [done|]. right. eauto.
    + intros Hok.
      by destruct (Hinv (λ v, field ∈ METRIC_FIELDS
                              ∧ (field ∈ SUM_FIELDS ∨ ∃ n, py_int v = Ok n)) Hok).
  - destruct (py_int value) as [n|e] eqn:Hint; simpl.
    + rewrite Hadd. split.
      * intros Hm. right. exists value. split; [done|]. right. eauto.
      * intros Hok.
        by destruct (Hinv (λ v, field ∈ METRIC_FIELDS
                                ∧ (field ∈ SUM_FIELDS ∨ ∃ n, py_int v = Ok n)) Hok).
    + split; [by intros [? ?]|]. intros Hok.
      destruct (Hinv (λ v, field ∈ METRIC_FIELDS
                           ∧ (field ∈ SUM_FIELDS ∨ ∃ n, py_int v = Ok n)) Hok)
        as [_ [Hs|[n Hn]]]; [by destruct Hsum|].
      rewrite Hint in Hn. discriminate.
Qed.

Lemma flights_not_sum : "flights" ∉ SUM_FIELDS.
Proof. apply (bool_decide_unpack _). by vm_compute. Qed.

Lemma default_stats_wf table key :
  wf_table table → wf_stats (default new_stats (table !! key)).
Proof.
  intros Hwf. destruct (table !! key) as [stats|] eqn:Hkey; simpl.
  - by eapply Hwf.
  - apply new_stats_wf.
Qed.

Lemma update_row_inv columns table key row table' :
  update_row columns table (key, row) = Ok table' →
  ∃ value n stats1 stats2,
    row !! "flights" = Some value ∧ py_int value = Ok n
    ∧ stats_add (default new_stats (table !! key)) "flights" (NInt n) = Ok stats1
    ∧ for_each (update_field row) columns stats1 = Ok stats2
    ∧ table' = <[key := stats2]> table.
Proof.
  unfold update_row. intros Hrun.
  apply bind_Ok in Hrun as (value & Hvalue & Hrun).
  apply bind_Ok in Hrun as (n & Hn & Hrun).
  apply bind_Ok in Hrun as (stats1 & Hstats1 & Hrun).
  apply bind_Ok in Hrun as (stats2 & Hstats2 & Hrun).
  apply Ok_inj in Hrun as <-. exists value, n, stats1, stats2.
  unfold getitem in Hvalue. destruct (row !! "flights"); [|done].
  apply Ok_inj in Hvalue as ->. done.
Qed.

Lemma update_row_spec columns table key row table' :
  wf_table table → update_row columns table (key, row) = Ok table' →
  wf_table table'
  ∧ dom table' = {[key]} ∪ dom table
  ∧ ∀ k other, other ∈ COUNT_FIELDS →
      count_at table' k other
      = count_at table k other
        + (if decide (k = key) then row_delta columns row other else 0).
Proof.
  intros Hwf (value & n & stats1 & stats2 & Hvalue & Hn & Hadd & Hloop & ->)
    %update_row_inv.
  pose proof (default_stats_wf table key Hwf) as Hwf0.
  assert (Hwf1 : wf_stats stats1).
  { eapply stats_add_wf; [exact Hwf0| |exact Hadd].
    apply typed_int, flights_not_sum. }
  assert (Hwf2 : wf_stats stats2).
  { eapply (for_each_invariant wf_stats); [|exact Hwf1|exact Hloop].
    intros s f s' _ Hs Hstep. by apply (update_field_count row s f s'). }
  split; [|split].
  - intros k stats. rewrite lookup_insert. case_decide; [by intros [= <-]|apply Hwf].
  - apply dom_insert_L.
  - intros k other Hother. unfold count_at at 1. rewrite lookup_insert.
    case_decide as Hk; [subst k; rewrite decide_True by done|
                        rewrite decide_False by done; unfold count_at; lia].
    simpl.
    destruct (for_each_fold wf_stats (λ s, count_of s other)
                (λ z f, z + field_delta row f other)
                (update_field row) columns stats1 stats2) as [_ Hcount];
      [|done..|].
    { intros s f s' _ Hs Hstep.
      destruct (update_field_count row s f s' Hs Hstep) as [Hs' Heq]. auto. }
    rewrite Hcount, foldl_add_Zsum. unfold row_delta, count_at, flights_of.
    rewrite (stats_add_count _ _ _ _ other Hadd), Hvalue, Hn.
    destruct (decide ("flights" = other)) as [<-|Hne].
    + rewrite decide_True by done. rewrite wf_stats_count by done. simpl. lia.
    + rewrite (decide_False (P := other = "flights")) by done. lia.
Qed.

Lemma update_row_ok columns table key row :
  wf_table table →
  (∃ table', update_row columns table (key, row) = Ok table') ↔ row_ok columns row.
Proof.
  intros Hwf. pose proof (default_stats_wf table key Hwf) as Hwf0.
  assert (Hloop : ∀ stats1, wf_stats stats1 →
    (∃ stats2, for_each (update_field row) columns stats1 = Ok stats2)
    ↔ Forall (field_ok row) columns).
  { intros stats1 Hwf1. apply (for_each_is_Ok wf_stats); [| |done].
    - intros s f Hs. by apply update_field_ok.
    - intros s f s' Hs Hstep. by apply (update_field_count row s f s'). }
  split.
  - intros [table' (value & n & stats1 & stats2 & Hvalue & Hn & Hadd & Hrun & _)
             %update_row_inv].
    split; [eauto|]. apply (Hloop stats1); [|eauto].
    eapply stats_add_wf; [exact Hwf0| |exact Hadd]. apply typed_int, flights_not_sum.
  - intros [(value & n & Hvalue & Hn) Hfields]. unfold update_row, getitem.
    rewrite Hvalue. simpl. rewrite Hn. simpl.
    assert (Hflights : is_Some (default new_stats (table !! key) !! "flights")).
    { apply wf_stats_lookup; [done|]. apply (bool_decide_unpack _). by vm_compute. }
    destruct Hflights as [old Hold].
    assert (Hadd : stats_add (default new_stats (table !! key)) "flights" (NInt n)
                   = Ok (<["flights" := py_add old (NInt n)]>
                           (default new_stats (table !! key)))).
    { apply stats_add_Ok. eauto. }
    rewrite Hadd. simpl.
    destruct (proj2 (Hloop _ (stats_add_wf _ _ _ _ Hwf0
                (typed_int _ _ flights_not_sum) Hadd)) Hfields) as [stats2 ->].
    simpl. eauto.
Qed.

Lemma update_rows_spec columns rows table table' :
  wf_table table → for_each (update_row columns) rows table = Ok table' →
  wf_table table'
  ∧ (∀ k, k ∈ dom table' ↔ k ∈ dom table ∨ k ∈ rows.*1)
  ∧ ∀ k other, other ∈ COUNT_FIELDS →
      count_at table' k other
      = count_at table k other
        + Zsum ((λ kr, if decide (k = kr.1)
                       then row_delta columns kr.2 other else 0) <$> rows).
Proof.
  revert table. induction rows as [|[key row] rows IH]; intros table Hwf Hrun;
    simpl in Hrun.
  - apply Ok_inj in Hrun as <-. split; [done|]. split.
    + intros k. rewrite fmap_nil, elem_of_nil. naive_solver.
    + intros k other _. simpl. lia.
  - apply bind_Ok in Hrun as (table1 & Hstep & Hrun).
    destruct (update_row_spec _ _ _ _ _ Hwf Hstep) as (Hwf1 & Hdom1 & Hcount1).
    destruct (IH _ Hwf1 Hrun) as (Hwf' & Hdom' & Hcount').
    split; [done|]. split.
    + intros k. rewrite Hdom', Hdom1, fmap_cons, elem_of_cons.
      rewrite elem_of_union, elem_of_singleton. simpl. naive_solver.
    + intros k other Hother. rewrite Hcount', Hcount1 by done.
      rewrite fmap_cons. cbn [Zsum fst snd]. symmetry. apply Z.add_assoc.
Qed.

Lemma update_table_spec table grouped table' :
  wf_table table → update_table table grouped = Ok table' →
  wf_table table'
  ∧ (∀ k, k ∈ dom table' ↔ k ∈ dom table ∨ k ∈ grouped_keys grouped)
  ∧ ∀ k other, other ∈ COUNT_FIELDS →
      count_at table' k other
      = count_at table k other + grouped_delta grouped k other.
Proof.
  unfold update_table, grouped_delta, grouped_keys.
  destruct (grouped_empty grouped).
  - intros Hwf <-%Ok_inj. split; [done|]. split.
    + intros k. rewrite elem_of_nil. naive_solver.
    + intros. lia.
  - apply update_rows_spec.
Qed.

Lemma update_table_ok table grouped :
  wf_table table →
  (∃ table', update_table table grouped = Ok table') ↔ grouped_ok grouped.
Proof.
  intros Hwf. unfold update_table, grouped_ok.
  destruct (grouped_empty grouped); [split; eauto|].
  rewrite (for_each_is_Ok wf_table
             (λ kr, row_ok (g_columns grouped) kr.2)); [| | |done].
  - split; [by right|]. by intros [?|?].
  - intros t [key row] Ht. by apply update_row_ok.
  - intros t [key row] t' Ht Hstep. by apply (update_row_spec _ _ _ _ _ Ht Hstep).
Qed.




(** ** The record invariant along a run *)








Lemma overall_add_sum_wf (as_float : bool) field col chunk overall overall' :
  wf_stats overall →
  (if as_float then field ∈ SUM_FIELDS else field ∉ SUM_FIELDS) →
  overall_add_sum as_float field col chunk overall = Ok overall' →
  wf_stats overall'.
Proof.
  intros Hwf Hfield Hrun. unfold overall_add_sum in Hrun.
  apply bind_Ok in Hrun as (series & _ & Hrun).
  apply bind_Ok in Hrun as (total & _ & Hrun). destruct as_float.
  - eapply stats_add_wf; [done| |exact Hrun]. by apply typed_float.
  - apply bind_Ok in Hrun as (n & _ & Hrun).
    eapply stats_add_wf; [done| |exact Hrun]. by apply typed_int.
Qed.

Lemma overall_add_count_wf field col chunk overall overall' :
  wf_stats overall → field ∉ SUM_FIELDS →
  overall_add_count field col chunk overall = Ok overall' → wf_stats overall'.
Proof.
  intros Hwf Hfield Hrun. unfold overall_add_count in Hrun.
  apply bind_Ok in Hrun as (series & _ & Hrun).
  eapply stats_add_wf; [done| |exact Hrun]. by apply typed_int.
Qed.

Lemma overall_delay_wf col sum_field count_field over_field chunk overall overall' :
  wf_stats overall → sum_field ∈ SUM_FIELDS →
  count_field ∉ SUM_FIELDS → over_field ∉ SUM_FIELDS →
  overall_delay col sum_field count_field over_field chunk overall = Ok overall' →
  wf_stats overall'.
Proof.
  intros Hwf Hsum Hcount Hover Hrun. unfold overall_delay in Hrun.
  destruct (has_col chunk col); [|by apply Ok_inj in Hrun as <-].
  apply bind_Ok in Hrun as (o1 & H1 & Hrun).
  apply bind_Ok in Hrun as (o2 & H2 & Hrun).
  apply (overall_add_sum_wf true) in H1; [|done..].
  apply overall_add_count_wf in H2; [|done..].
  destruct (has_col chunk over_field); [|by apply Ok_inj in Hrun as <-].
  by apply (overall_add_sum_wf false) in Hrun.
Qed.

Lemma overall_flag_wf col field chunk overall overall' :
  wf_stats overall → field ∉ SUM_FIELDS →
  overall_flag col field chunk overall = Ok overall' → wf_stats overall'.
Proof.
  intros Hwf Hfield Hrun. unfold overall_flag in Hrun.
  destruct (has_col chunk col); [|by apply Ok_inj in Hrun as <-].
  by apply (overall_add_sum_wf false) in Hrun.
Qed.

Ltac field_class := apply (bool_decide_unpack _); by vm_compute.

Lemma update_overall_wf overall chunk overall' :
  wf_stats overall → update_overall overall chunk = Ok overall' →
  wf_stats overall'.
Proof.
  intros Hwf Hrun. unfold update_overall in Hrun.
  apply bind_Ok in Hrun as (o1 & H1 & Hrun).
  apply bind_Ok in Hrun as (o2 & H2 & Hrun).
  apply bind_Ok in Hrun as (o3 & H3 & Hrun).
  apply bind_Ok in Hrun as (o4 & H4 & Hrun).
  apply bind_Ok in Hrun as (o5 & H5 & Hrun).
  eapply stats_add_wf in H1; [|done|apply typed_int; field_class].
  apply overall_delay_wf in H2; [|done|field_class..].
  apply overall_delay_wf in H3; [|done|field_class..].
  apply overall_flag_wf in H4; [|done|field_class].
  apply overall_flag_wf in H5; [|done|field_class].
  eapply (for_each_invariant wf_stats); [|exact H5|exact Hrun].
  intros o [cause_col field_name] o' Hin Ho Hstep.
  destruct (has_col chunk cause_col); [|by apply Ok_inj in Hstep as <-].
  apply (overall_add_sum_wf true) in Hstep; [done..|].
  assert (Hsums : Forall (λ cf, cf.2 ∈ SUM_FIELDS) DELAY_CAUSE_COLUMNS)
    by field_class.
  rewrite Forall_forall in Hsums. by apply (Hsums _ Hin).
Qed.

Lemma update_dimension_wf chunk keys table table' :
  wf_table table → update_dimension chunk keys table = Ok table' →
  wf_table table'.
Proof.
  intros Hwf Hrun. unfold update_dimension in Hrun.
  destruct (forallb _ keys); [|by apply Ok_inj in Hrun as <-].
  apply bind_Ok in Hrun as (grouped & _ & Hrun).
  by apply (update_table_spec _ _ _ Hwf Hrun).
Qed.

Lemma initial_state_wf : wf_state initial_state.
Proof.
  assert (Hempty : wf_table ∅).
  { intros key stats Hkey. by rewrite lookup_empty in Hkey. }
  unfold wf_state, initial_state. cbn [monthly_stats carrier_stats origin_stats
    route_stats overall_stats].
  split; [done|]. split; [done|]. split; [done|]. split; [done|].
  apply new_stats_wf.
Qed.

Section RunInvariant.
Context `{Pandas}.

Lemma process_chunk_wf st chunk st' :
  wf_state st → process_chunk st chunk = Ok st' → wf_state st'.
Proof.
  intros (Hm & Hc & Ho & Hr & Hall) Hrun. unfold process_chunk in Hrun.
  apply bind_Ok in Hrun as (normal & _ & Hrun).
  destruct (df_empty normal); [by apply Ok_inj in Hrun as <-|].
  apply bind_Ok in Hrun as (overall & Hoverall & Hrun).
  apply bind_Ok in Hrun as (monthly & Hmonthly & Hrun).
  apply bind_Ok in Hrun as (carrier & Hcarrier & Hrun).
  apply bind_Ok in Hrun as (origin & Horigin & Hrun).
  apply bind_Ok in Hrun as (route & Hroute & Hrun).
  apply Ok_inj in Hrun as <-. unfold wf_state. simpl.
  eauto 10 using update_overall_wf, update_dimension_wf.
Qed.


End RunInvariant.


(** ** The boundary scenario *)

(** C2. The boundary scenario: normalising, aggregating and enriching
    the batch of three rows gives the monthly keys 2024-01 and 2024-02
    with the stated flights, arrival-delay count, sum and over-15 count
    and cancelled count, an on-time rate of 0.0 for carrier "AA" and of
    1.0 for "DL", and an overall cancellation rate of 1/3. *)
Theorem boundary_scenario :
  ∃ st carrier,
    @process_chunks Reference.pandas [Scenario.batch] = Ok st
    ∧ enrich_metrics (finalize_table (carrier_stats st) ["OP_CARRIER"]) = Ok carrier
    ∧ Scenario.expected st carrier.
Proof.
  assert (Hrun :
    match @process_chunks Reference.pandas [Scenario.batch] with
    | Ok st =>
        match enrich_metrics (finalize_table (carrier_stats st) ["OP_CARRIER"]) with
        | Ok carrier => bool_decide (Scenario.expected st carrier)
        | Raise _ => false
        end
    | Raise _ => false
    end = true) by (vm_compute; reflexivity).
  destruct (@process_chunks Reference.pandas [Scenario.batch])
    as [st|] eqn:Hst; [|discriminate Hrun].
  destruct (enrich_metrics (finalize_table (carrier_stats st) ["OP_CARRIER"]))
    as [carrier|] eqn:Hcarrier; [|discriminate Hrun].
  apply bool_decide_eq_true_1 in Hrun.
  exists st, carrier. split; [reflexivity|]. split; [exact Hcarrier|exact Hrun].
Qed.

(** ** Sample runs *)

Lemma returns_value {A : Type} (fallback : A) (run : result A) :
  Sample.returns run = true → run = Ok (Sample.value fallback run).
Proof. destruct run; [reflexivity|discriminate]. Defined.




(** The enrichment of a table of one group, enriched again. *)
Lemma enrichment_idempotent_witness :
  enrich_metrics (finalize_table Sample.table ["OP_CARRIER"])
  = Ok Sample.enriched_table
  ∧ enrich_metrics Sample.enriched_table = Ok Sample.enriched_table.
Proof.
  assert (Hrun : enrich_metrics (finalize_table Sample.table ["OP_CARRIER"])
                 = Ok Sample.enriched_table)
    by (apply returns_value; vm_compute; reflexivity).
  split; [exact Hrun|].
  exact (proj1 (enrichment_idempotent _ _ Hrun)).
Defined.

(** A group without flights: the enrichment returns, and the on-time
    rate of its row is NaN. *)
Lemma zero_denominator_safety_witness :
  (∀ name, name ∈ ["OP_CARRIER"] → name ∉ METRIC_FIELDS)
  ∧ ∃ out row,
      enrich_metrics (finalize_table Sample.table ["OP_CARRIER"]) = Ok out
      ∧ df_rows out = [row]
      ∧ row !! "on_time_rate" = Some (VFloat F64.nan).
Proof.
  assert (Hkeys : ∀ name, name ∈ ["OP_CARRIER"] → name ∉ METRIC_FIELDS).
  { intros name ->%list_elem_of_singleton.
    apply (bool_decide_unpack _). vm_compute. exact I. }
  split; [exact Hkeys|].
  destruct (zero_denominator_safety Sample.table ["OP_CARRIER"] Hkeys)
    as (out & Hrun & Hrows).
  unfold Sample.table in Hrows. rewrite map_to_list_singleton in Hrows.
  apply Forall2_cons_inv_l in Hrows as (row & rows & (Hzero & _) & Hnil & Hout).
  apply Forall2_nil_inv_l in Hnil as ->.
  exists out, row. split; [exact Hrun|]. split; [exact Hout|].
  apply Hzero. vm_compute. reflexivity.
Defined.



(** ** Which metrics a run has seen *)

Lemma metrics_present_fold (chunk : DataFrame)
    (table : list (string * gset string)) (present : gset string) metric :
  metric ∈ foldl (λ present '(column, metrics),
                    if has_col chunk column then present ∪ metrics else present)
                 present table
  ↔ metric ∈ present
    ∨ ∃ column metrics, (column, metrics) ∈ table
        ∧ has_col chunk column = true ∧ metric ∈ metrics.
Proof.
  revert present. induction table as [|[column metrics] table IH]; intros present.
  - simpl. split; [by left|]. intros [?|(? & ? & Hin & _)]; [done|].
    by apply elem_of_nil in Hin.
  - cbn [foldl]. rewrite IH. split.
    + intros [Hin|(c & ms & Hin & Hcol & Hm)].
      * destruct (has_col chunk column) eqn:Hcol; [|by left].
        apply elem_of_union in Hin as [?|?]; [by left|].
        right. exists column, metrics. split; [apply list_elem_of_here|done].
      * right. exists c, ms. split; [by apply list_elem_of_further|done].
    + intros [Hin|(c & ms & Hin & Hcol & Hm)].
      * left. destruct (has_col chunk column); [|done].
        apply elem_of_union. by left.
      * apply elem_of_cons in Hin as [[= -> ->]|Hin].
        -- left. rewrite Hcol. apply elem_of_union. by right.
        -- right. by exists c, ms.
Qed.

(** X1. [update_metrics_present] adds to the set exactly the metrics of
    the columns the chunk has: a metric is in the result when it was in
    the set before or when it belongs, in [COLUMN_TO_METRICS], to a
    column of the chunk. So the set only grows, a second update with the
    same chunk changes nothing, and starting from the empty set the
    result holds metric fields only and never "flights". *)
Theorem metrics_present_spec (present : gset string) (chunk : DataFrame) :
  (∀ metric,
     metric ∈ update_metrics_present present chunk
     ↔ metric ∈ present
       ∨ ∃ column metrics, (column, metrics) ∈ COLUMN_TO_METRICS
           ∧ has_col chunk column = true ∧ metric ∈ metrics)
  ∧ present ⊆ update_metrics_present present chunk
  ∧ update_metrics_present (update_metrics_present present chunk) chunk
    = update_metrics_present present chunk
  ∧ update_metrics_present ∅ chunk ⊆ list_to_set METRIC_FIELDS ∖ {["flights"]}.
Proof.
  assert (Hspec : ∀ present metric,
    metric ∈ update_metrics_present present chunk
    ↔ metric ∈ present
      ∨ ∃ column metrics, (column, metrics) ∈ COLUMN_TO_METRICS
          ∧ has_col chunk column = true ∧ metric ∈ metrics)
    by (intros; apply metrics_present_fold).
  split; [apply Hspec|]. split; [|split].
  - intros metric Hin. apply Hspec. by left.
  - apply set_eq. intros metric. rewrite (Hspec (update_metrics_present _ _)).
    rewrite Hspec. tauto.
  - intros metric [Hin|(column & metrics & Hin & _ & Hm)]%Hspec.
    { by apply elem_of_empty in Hin. }
    assert (Hall : Forall
      (λ cm : string * gset string,
         cm.2 ⊆ list_to_set METRIC_FIELDS ∖ {["flights"]}) COLUMN_TO_METRICS)
      by (apply (bool_decide_unpack _); by vm_compute).
    rewrite Forall_forall in Hall. by apply (Hall _ Hin).
Qed.

(** ** The shape of a normalised chunk *)

Section NormalizedShape.
Context `{Pandas}.

Lemma normalize_flag_ints series flags :
  normalize_flag series = Ok flags → Forall (λ v, ∃ n, v = VInt n) flags.
Proof.
  unfold normalize_flag. destruct series as [|v0 rest]; [by intros <-%Ok_inj|].
  destruct (forallb is_bool _).
  { intros <-%Ok_inj. apply Forall_fmap, Forall_true. intros v. simpl. eauto. }
  destruct (existsb _ _).
  - intros Hrun%map_result_Ok. apply Forall2_Forall_r with (1 := Hrun).
    apply Forall_true. intros x v. unfold astype_int64.
    destruct (F64.trunc _); [|done]. intros <-%Ok_inj. eauto.
  - intros <-%Ok_inj. apply Forall_fmap, Forall_true. intros v. simpl. eauto.
Qed.

Lemma normalize_flag_length series flags :
  normalize_flag series = Ok flags → length flags = length series.
Proof.
  unfold normalize_flag. destruct series as [|v0 rest]; [by intros <-%Ok_inj|].
  destruct (forallb is_bool _); [intros <-%Ok_inj; by rewrite length_fmap|].
  destruct (existsb _ _).
  - intros Hrun%map_result_Ok. apply Forall2_length in Hrun.
    by rewrite length_fmap in Hrun.
  - intros <-%Ok_inj. by rewrite length_fmap.
Qed.

Lemma when_flag_ints name X Y :
  when_col name (normalize_flag_col name) X = Ok Y →
  (∀ c, has_col Y c = has_col X c)
  ∧ Forall2 (λ row row', ∃ n, row' = put (has_col X name) name (VInt n) row)
            (df_rows X) (df_rows Y).
Proof.
  unfold when_col, normalize_flag_col. destruct (has_col X name) eqn:Hname.
  - rewrite get_col_present by done. cbn [mbind result_bind].
    intros Hrun. apply bind_Ok in Hrun as (flags & Hflags & <-%Ok_inj). split.
    + intros c. by apply set_col_present.
    + simpl. pose proof (normalize_flag_length _ _ Hflags) as Hlen.
      apply normalize_flag_ints in Hflags as Hints.
      rewrite length_fmap in Hlen. clear Hflags. revert flags Hlen Hints.
      induction (df_rows X) as [|row rows IH]; intros [|v flags] Hlen Hints;
        simpl in *; try done; try (by constructor).
      apply Forall_cons in Hints as [[n ->] Hints].
      constructor; [by exists n|]. apply IH; [lia|done].
  - intros <-%Ok_inj. split; [done|].
    apply Forall_Forall2_diag, Forall_true. intros row. by exists 0.
Qed.

(** The columns and the rows [preprocess_chunk] returns: the columns of
    the chunk together with the month and the over-15 indicators of the
    delays it has, and one row per row whose date parses, the flags
    integers. *)
Lemma preprocess_shape chunk out :
  preprocess_chunk chunk = Ok out →
  has_col chunk "FL_DATE" = true
  ∧ (∀ c, has_col out c
          = has_col chunk c || bool_decide (c = "month")
            || (has_col chunk "ARR_DELAY" && bool_decide (c = "arr_delay_over_15"))
            || (has_col chunk "DEP_DELAY" && bool_decide (c = "dep_delay_over_15")))
  ∧ Forall2 (λ raw row, ∃ cancelled diverted : Z,
               row = norm_row chunk (VInt cancelled) (VInt diverted) raw)
            (filter parsed (df_rows chunk)) (df_rows out).
Proof.
  rewrite preprocess_chunk_dated.
  destruct (has_col chunk "FL_DATE") eqn:Hdate; [|done]. cbn zeta.
  assert (Hcols0 : ∀ c, has_col (dated chunk) c = has_col chunk c).
  { intros c. unfold has_col. by rewrite dated_columns. }
  rewrite get_col_present by (by rewrite Hcols0). cbn [mbind result_bind].
  set (X1 := set_col (dated chunk) "month" _).
  assert (Hrows1 : df_rows X1
    = (λ row, <["month" := to_period_M (cell "FL_DATE" row)]> row)
      <$> df_rows (dated chunk)).
  { unfold X1. rewrite <- list_fmap_compose.
    apply (set_col_fmap _ "month" (to_period_M ∘ cell "FL_DATE")). }
  assert (Hcols1 : ∀ c, has_col X1 c = has_col chunk c || bool_decide (c = "month")).
  { intros c. unfold X1. by rewrite has_col_set_col, Hcols0. }
  destruct (when_delay "ARR_DELAY" "arr_delay_over_15" X1)
    as (X2 & -> & Hrows2 & Hcols2). cbn [mbind result_bind].
  destruct (when_delay "DEP_DELAY" "dep_delay_over_15" X2)
    as (X3 & -> & Hrows3 & Hcols3). cbn [mbind result_bind].
  intros Hrun. apply bind_Ok in Hrun as (X4 & Hflag4 & Hrun).
  apply bind_Ok in Hrun as (X5 & Hflag5 & Hrun).
  apply when_flag_ints in Hflag4 as [Hcols4 Hrows4].
  apply when_flag_ints in Hflag5 as [Hcols5 Hrows5].
  assert (Harr : has_col X1 "ARR_DELAY" = has_col chunk "ARR_DELAY").
  { rewrite Hcols1. apply orb_false_r. }
  assert (Hdep : has_col X2 "DEP_DELAY" = has_col chunk "DEP_DELAY").
  { rewrite Hcols2, Hcols1. simpl. by rewrite andb_false_r, !orb_false_r. }
  assert (Hcan : has_col X3 "CANCELLED" = has_col chunk "CANCELLED").
  { rewrite Hcols3, Hcols2, Hcols1. simpl. by rewrite !andb_false_r, !orb_false_r. }
  assert (Hdiv : has_col X4 "DIVERTED" = has_col chunk "DIVERTED").
  { rewrite Hcols4, Hcols3, Hcols2, Hcols1. simpl.
    by rewrite !andb_false_r, !orb_false_r. }
  assert (Hcols : ∀ c, has_col X5 c
            = has_col chunk c || bool_decide (c = "month")
              || (has_col chunk "ARR_DELAY" && bool_decide (c = "arr_delay_over_15"))
              || (has_col chunk "DEP_DELAY" && bool_decide (c = "dep_delay_over_15"))).
  { intros c. by rewrite Hcols5, Hcols4, Hcols3, Hdep, Hcols2, Harr, Hcols1. }
  assert (Hplain : ∀ c, c ∉ ["month"; "arr_delay_over_15"; "dep_delay_over_15"] →
            has_col X5 c = has_col chunk c).
  { intros c Hc. rewrite Hcols.
    rewrite !(bool_decide_eq_false_2 (c = _)); [|intros ->; apply Hc; in_list..].
    by rewrite !andb_false_r, !orb_false_r. }
  destruct (causes_steps chunk (fst <$> DELAY_CAUSE_COLUMNS) X5)
    as (Y & HY & HrowsY & HcolsY).
  { intros c Hc. apply Hplain.
    assert (Hfresh : Forall
      (λ c, c ∉ ["month"; "arr_delay_over_15"; "dep_delay_over_15"])
      (fst <$> DELAY_CAUSE_COLUMNS))
      by (apply (bool_decide_unpack _); by vm_compute).
    rewrite Forall_forall in Hfresh. by apply Hfresh. }
  rewrite HY in Hrun. apply Ok_inj in Hrun as <-. split; [done|]. split.
  { intros c. by rewrite HcolsY, Hcols. }
  rewrite HrowsY. apply Forall2_fmap_r.
  rewrite Hrows3, Hrows2, Hrows1, dated_rows in Hrows4.
  rewrite <- !list_fmap_compose in Hrows4. apply Forall2_fmap_l in Hrows4.
  eapply Forall2_trans; [|exact Hrows4|exact Hrows5].
  intros raw row4 row5 [cancelled Hrow4] [diverted Hrow5]. simpl in Hrow4.
  exists cancelled, diverted. unfold norm_row. rewrite Hrow5, Hrow4.
  by rewrite Harr, Hdep, Hcan, Hdiv.
Qed.

End NormalizedShape.

(** ** The aggregation spec *)

Lemma cause_spec_elem X (causes : list (string * string)) entry :
  entry ∈ flat_map (λ '(cause_col, field_name),
                      if has_col X cause_col
                      then [(field_name, (cause_col, AggSum))] else [])
                   causes
  ↔ ∃ cause_col field_name, (cause_col, field_name) ∈ causes
      ∧ has_col X cause_col = true ∧ entry = (field_name, (cause_col, AggSum)).
Proof.
  induction causes as [|[c f] causes IH]; simpl.
  - split; [by intros ?%elem_of_nil|]. by intros (? & ? & ?%elem_of_nil & _).
  - rewrite elem_of_app, IH. split.
    + intros [Hin|(c' & f' & Hin & Hcol & ->)].
      * destruct (has_col X c) eqn:Hcol; [|by apply elem_of_nil in Hin].
        apply list_elem_of_singleton in Hin as ->.
        exists c, f. split; [apply list_elem_of_here|done].
      * exists c', f'. split; [by apply list_elem_of_further|done].
    + intros (c' & f' & Hin & Hcol & ->).
      apply elem_of_cons in Hin as [[= -> ->]|Hin].
      * left. rewrite Hcol. apply list_elem_of_here.
      * right. by exists c', f'.
Qed.

Lemma cause_spec_names X (causes : list (string * string)) :
  sublist (fst <$> flat_map (λ '(cause_col, field_name),
                               if has_col X cause_col
                               then [(field_name, (cause_col, AggSum))] else [])
                            causes)
          (snd <$> causes).
Proof.
  induction causes as [|[c f] causes IH]; simpl; [constructor|].
  destruct (has_col X c); simpl; by constructor.
Qed.

Lemma sublist_when {A : Type} (b : bool) (l : list A) :
  sublist (if b then l else []) l.
Proof. destruct b; [done|apply sublist_nil_l]. Qed.

(** The names of the spec, in the order of [METRIC_FIELDS]. *)
Lemma agg_spec_names X : sublist (fst <$> build_agg_spec X) METRIC_FIELDS.
Proof.
  unfold build_agg_spec, METRIC_FIELDS, BASE_METRIC_FIELDS.
  rewrite !fmap_app.
  change (sublist ?l _) with
    (sublist l
       (["flights"]
        ++ ["arr_delay_sum"; "arr_delay_count"; "arr_delay_over_15"]
        ++ ["dep_delay_sum"; "dep_delay_count"; "dep_delay_over_15"]
        ++ ["cancelled"] ++ ["diverted"] ++ (snd <$> DELAY_CAUSE_COLUMNS))%list).
  apply sublist_app; [done|].
  apply sublist_app; [destruct (has_col X "ARR_DELAY"); [done|apply sublist_nil_l]|].
  apply sublist_app; [destruct (has_col X "DEP_DELAY"); [done|apply sublist_nil_l]|].
  apply sublist_app; [destruct (has_col X "CANCELLED"); [done|apply sublist_nil_l]|].
  apply sublist_app; [destruct (has_col X "DIVERTED"); [done|apply sublist_nil_l]|].
  apply cause_spec_names.
Qed.

Lemma METRIC_FIELDS_NoDup : NoDup METRIC_FIELDS.
Proof. apply (bool_decide_unpack _). by vm_compute. Qed.

Lemma agg_spec_NoDup X : NoDup (fst <$> build_agg_spec X).
Proof. eapply sublist_NoDup; [apply METRIC_FIELDS_NoDup|apply agg_spec_names]. Qed.

(** The source column of an entry is a column of the chunk, or the
    over-15 indicator of a delay column of the chunk; a sum field is
    aggregated by [sum]. *)
Lemma agg_spec_entry X name col func :
  (name, (col, func)) ∈ build_agg_spec X →
  (col = "FL_DATE" ∧ name = "flights" ∧ func = AggSize)
  ∨ (name ≠ "flights"
     ∧ (func = AggSum ∨ (func = AggCount ∧ name ∉ SUM_FIELDS))
     ∧ (has_col X col = true
        ∨ (col = "arr_delay_over_15" ∧ has_col X "ARR_DELAY" = true)
        ∨ (col = "dep_delay_over_15" ∧ has_col X "DEP_DELAY" = true))).
Proof.
  assert (Hcount : ∀ n, n ∈ ["arr_delay_count"; "dep_delay_count"] → n ∉ SUM_FIELDS).
  { apply Forall_forall. apply (bool_decide_unpack _). by vm_compute. }
  unfold build_agg_spec. rewrite !elem_of_app.
  intros [Hin|[Hin|[Hin|[Hin|[Hin|Hin]]]]].
  - apply list_elem_of_singleton in Hin as [= -> -> ->]. by left.
  - destruct (has_col X "ARR_DELAY") eqn:Hcol; [|by apply elem_of_nil in Hin].
    right. rewrite !elem_of_cons, elem_of_nil in Hin.
    destruct Hin as [[= -> -> ->]|[[= -> -> ->]|[[= -> -> ->]|[]]]].
    + split; [done|]. split; [by left|by left].
    + split; [done|]. split; [right; split; [done|apply Hcount; in_list]|by left].
    + split; [done|]. split; [by left|right; by left].
  - destruct (has_col X "DEP_DELAY") eqn:Hcol; [|by apply elem_of_nil in Hin].
    right. rewrite !elem_of_cons, elem_of_nil in Hin.
    destruct Hin as [[= -> -> ->]|[[= -> -> ->]|[[= -> -> ->]|[]]]].
    + split; [done|]. split; [by left|by left].
    + split; [done|]. split; [right; split; [done|apply Hcount; in_list]|by left].
    + split; [done|]. split; [by left|right; by right].
  - destruct (has_col X "CANCELLED") eqn:Hcol; [|by apply elem_of_nil in Hin].
    apply list_elem_of_singleton in Hin as [= -> -> ->]. right.
    split; [done|]. split; [by left|by left].
  - destruct (has_col X "DIVERTED") eqn:Hcol; [|by apply elem_of_nil in Hin].
    apply list_elem_of_singleton in Hin as [= -> -> ->]. right.
    split; [done|]. split; [by left|by left].
  - apply cause_spec_elem in Hin as (c & f & Hin & Hcol & [= -> -> ->]). right.
    split; [|split; [by left|by left]].
    assert (Hnames : Forall (λ cf : string * string, cf.2 ≠ "flights")
                            DELAY_CAUSE_COLUMNS)
      by (apply (bool_decide_unpack _); by vm_compute).
    rewrite Forall_forall in Hnames. apply (Hnames _ Hin).
Qed.

Section AggSpec.
Context `{Pandas}.

(** X2. The aggregation spec of a normalised chunk. Its output names
    are metric fields, without repeats and in the order of
    [METRIC_FIELDS]; it always counts the flights as the size of the
    group; and every source column it names is a column of the
    normalised chunk, the over-15 indicators included, so the
    aggregation finds each column it asks for. *)
Theorem agg_spec_over_normalized_chunk (chunk out : DataFrame) :
  preprocess_chunk chunk = Ok out →
  sublist (fst <$> build_agg_spec out) METRIC_FIELDS
  ∧ NoDup (fst <$> build_agg_spec out)
  ∧ ("flights", ("FL_DATE", AggSize)) ∈ build_agg_spec out
  ∧ ∀ name col func, (name, (col, func)) ∈ build_agg_spec out →
      has_col out col = true ∧ (func = AggSize ↔ name = "flights").
Proof.
  intros (Hdate & Hcols & _)%preprocess_shape.
  split; [apply agg_spec_names|]. split; [apply agg_spec_NoDup|]. split.
  { unfold build_agg_spec. rewrite !elem_of_app. left. apply list_elem_of_here. }
  intros name col func [(-> & -> & ->)|(Hname & Hfunc & Hcol)]%agg_spec_entry.
  { split; [|done]. rewrite Hcols, Hdate. done. }
  split.
  - assert (Harr : has_col out "ARR_DELAY" = has_col chunk "ARR_DELAY").
    { rewrite Hcols. simpl. by rewrite !andb_false_r, !orb_false_r. }
    assert (Hdep : has_col out "DEP_DELAY" = has_col chunk "DEP_DELAY").
    { rewrite Hcols. simpl. by rewrite !andb_false_r, !orb_false_r. }
    destruct Hcol as [Hcol|[[-> Hcol]|[-> Hcol]]]; [done|..].
    + rewrite Hcols, <- Harr, Hcol. simpl. by rewrite orb_true_r.
    + rewrite Hcols, <- Hdep, Hcol. simpl. by rewrite !orb_true_r.
  - split; [|done]. intros ->. by destruct Hfunc as [?|[? _]].
Qed.

End AggSpec.

(** The spec of the normalised batch of the boundary scenario. *)
Lemma agg_spec_over_normalized_chunk_witness :
  @preprocess_chunk Reference.pandas Scenario.batch
  = Ok (Sample.normalized Scenario.batch)
  ∧ NoDup (fst <$> build_agg_spec (Sample.normalized Scenario.batch)).
Proof.
  assert (Hrun : @preprocess_chunk Reference.pandas Scenario.batch
                 = Ok (Sample.normalized Scenario.batch))
    by (apply returns_value; vm_compute; reflexivity).
  split; [exact Hrun|].
  exact (proj1 (proj2 (agg_spec_over_normalized_chunk
                         (H := Reference.pandas) _ _ Hrun))).
Defined.

(** ** When the normaliser raises *)



Section NormalizerErrors.
Context `{Pandas}.





End NormalizerErrors.

(** ** A normalised chunk is typed *)

Section NormalizedFrame.
Context `{Pandas}.

Lemma norm_row_month chunk cancelled diverted raw :
  norm_row chunk cancelled diverted raw !! "month"
  = Some (to_period_M (to_datetime (cell "FL_DATE" raw))).
Proof.
  unfold norm_row. rewrite foldl_cause_row_other.
  2:{ intros Hin. destruct cause_names_fresh as [_ Hfresh].
      rewrite Forall_forall in Hfresh. apply (Hfresh _ Hin). in_list. }
  unfold delay_row, date_row.
  rewrite !lookup_put_ne by discriminate. rewrite lookup_insert_eq.
  by rewrite cell_insert, decide_True.
Qed.

Lemma norm_row_flags chunk cancelled diverted raw :
  (has_col chunk "CANCELLED" = true →
     norm_row chunk cancelled diverted raw !! "CANCELLED" = Some cancelled)
  ∧ (has_col chunk "DIVERTED" = true →
       norm_row chunk cancelled diverted raw !! "DIVERTED" = Some diverted).
Proof.
  destruct cause_names_fresh as [_ Hfresh]. rewrite Forall_forall in Hfresh.
  split; intros Hcol; unfold norm_row; rewrite foldl_cause_row_other.
  - rewrite Hcol. rewrite lookup_put_ne by discriminate. apply lookup_put_eq.
  - intros Hin. apply (Hfresh _ Hin). in_list.
  - rewrite Hcol. apply lookup_put_eq.
  - intros Hin. apply (Hfresh _ Hin). in_list.
Qed.

Lemma preprocess_normalized chunk out :
  preprocess_chunk chunk = Ok out → normalized_frame out.
Proof.
  intros (Hdate & Hcols & Hrows)%preprocess_shape.
  assert (Hplain : ∀ c, c ∉ ["month"; "arr_delay_over_15"; "dep_delay_over_15"] →
            has_col out c = has_col chunk c).
  { intros c Hc. rewrite Hcols.
    rewrite !(bool_decide_eq_false_2 (c = _)); [|intros ->; apply Hc; in_list..].
    by rewrite !andb_false_r, !orb_false_r. }
  assert (Hne : ∀ c, c ∈ ["FL_DATE"; "ARR_DELAY"; "DEP_DELAY"; "CANCELLED"; "DIVERTED"] →
            c ∉ ["month"; "arr_delay_over_15"; "dep_delay_over_15"]).
  { apply Forall_forall. apply (bool_decide_unpack _). by vm_compute. }
  split; [by rewrite Hplain, Hdate by (apply Hne; in_list)|].
  split; [rewrite Hcols; simpl; by rewrite orb_true_r|].
  split.
  { intros Hcol. rewrite Hplain in Hcol by (apply Hne; in_list).
    rewrite Hcols, Hcol. simpl. by rewrite orb_true_r. }
  split.
  { intros Hcol. rewrite Hplain in Hcol by (apply Hne; in_list).
    rewrite Hcols, Hcol. simpl. by rewrite !orb_true_r. }
  apply Forall2_Forall_r with (1 := Hrows). apply Forall_forall.
  intros raw [Hparsed _]%list_elem_of_filter row (cancelled & diverted & ->).
  unfold normalized_row, cell. split; [|split; [|split]].
  - rewrite norm_row_month. destruct Hparsed as [t Ht].
    unfold to_datetime. rewrite Ht. simpl. eauto.
  - intros name ind Hin Hcol.
    assert (Hchunk : has_col chunk name = true).
    { rewrite <- Hplain; [done|]. apply Hne.
      rewrite !elem_of_cons, elem_of_nil in Hin.
      destruct Hin as [[= -> _]|[[= -> _]|[]]]; in_list. }
    destruct (norm_row_delay chunk (VInt cancelled) (VInt diverted) raw
                name ind Hin Hchunk) as [-> ->].
    simpl. unfold over_15. eauto.
  - intros name Hin Hcol.
    assert (Hchunk : has_col chunk name = true).
    { rewrite <- Hplain; [done|]. apply Hne.
      rewrite !elem_of_cons, elem_of_nil in Hin.
      destruct Hin as [->|[->|[]]]; in_list. }
    destruct (norm_row_flags chunk (VInt cancelled) (VInt diverted) raw)
      as [Hcan Hdiv].
    rewrite !elem_of_cons, elem_of_nil in Hin.
    destruct Hin as [->|[->|[]]]; [rewrite Hcan|rewrite Hdiv]; simpl; eauto.
  - intros name Hin Hcol.
    assert (Hchunk : has_col chunk name = true).
    { rewrite <- Hplain; [done|]. destruct cause_names_fresh as [_ Hfresh].
      rewrite Forall_forall in Hfresh. intros Hbad. apply (Hfresh _ Hin).
      rewrite !elem_of_cons, elem_of_nil in Hbad.
      destruct Hbad as [->|[->|[->|[]]]]; in_list. }
    rewrite norm_row_cause by done. simpl. eauto.
Qed.

End NormalizedFrame.

(** ** Aggregating a normalised chunk never raises *)

Lemma for_each_total {A S : Type} (I : S → Prop)
    (body : S → A → result S) xs s :
  (∀ s x, x ∈ xs → I s → ∃ s', body s x = Ok s' ∧ I s') →
  I s → ∃ s', for_each body xs s = Ok s' ∧ I s'.
Proof.
  revert s. induction xs as [|x xs IH]; intros s Hbody Hs; simpl; [eauto|].
  destruct (Hbody s x) as (s1 & -> & Hs1); [apply list_elem_of_here|done|].
  simpl. apply IH; [|done]. intros s2 y Hy. apply Hbody. by apply list_elem_of_further.
Qed.

Lemma map_result_all {A B : Type} (Q : B → Prop) (f : A → result B) xs :
  (∀ x, x ∈ xs → ∃ y, f x = Ok y ∧ Q y) →
  ∃ ys, map_result f xs = Ok ys ∧ Forall Q ys.
Proof.
  induction xs as [|x xs IH]; intros Hf; simpl; [eauto|].
  destruct (Hf x) as (y & -> & Hy); [apply list_elem_of_here|].
  destruct IH as (ys & -> & Hys).
  { intros x' Hx'. apply Hf. by apply list_elem_of_further. }
  simpl. eauto.
Qed.

Lemma sum_from_floats series acc :
  Forall (λ v, ∃ x, v = VFloat x) series → ∃ total, sum_from acc series = Ok total.
Proof.
  intros Hall. revert acc. induction Hall as [|v series [x ->] _ IH]; intros acc.
  - simpl. eauto.
  - simpl. destruct (F64.is_nan x); apply IH.
Qed.

Lemma sum_from_ints series a :
  Forall (λ v, ∃ n, v = VInt n) series →
  ∃ total, sum_from (NInt a) series = Ok (NInt total).
Proof.
  intros Hall. revert a. induction Hall as [|v series [n ->] _ IH]; intros a.
  - simpl. eauto.
  - simpl. apply IH.
Qed.

Lemma stats_add_total stats field delta :
  wf_stats stats → field ∈ METRIC_FIELDS →
  ∃ stats', stats_add stats field delta = Ok stats'.
Proof.
  intros Hwf Hfield. apply (wf_stats_lookup _ _ Hwf) in Hfield as [old Hold].
  unfold stats_add, getitem. rewrite Hold. simpl. eauto.
Qed.

Lemma overall_add_sum_total (as_float : bool) field col X overall :
  wf_stats overall → field ∈ METRIC_FIELDS → has_col X col = true →
  (if as_float
   then Forall (λ row, ∃ x, cell col row = VFloat x) (df_rows X)
   else Forall (λ row, ∃ n, cell col row = VInt n) (df_rows X)) →
  ∃ overall', overall_add_sum as_float field col X overall = Ok overall'.
Proof.
  intros Hwf Hfield Hcol Hcells. unfold overall_add_sum.
  rewrite get_col_present by done. cbn [mbind result_bind].
  unfold series_sum. destruct as_float.
  - destruct (sum_from_floats (cell col <$> df_rows X) (NInt 0)) as [total ->].
    { by apply Forall_fmap. }
    cbn [mbind result_bind]. by apply stats_add_total.
  - destruct (sum_from_ints (cell col <$> df_rows X) 0) as [total ->].
    { by apply Forall_fmap. }
    cbn [mbind result_bind py_int]. by apply stats_add_total.
Qed.

Lemma overall_add_count_total field col X overall :
  wf_stats overall → field ∈ METRIC_FIELDS → has_col X col = true →
  ∃ overall', overall_add_count field col X overall = Ok overall'.
Proof.
  intros Hwf Hfield Hcol. unfold overall_add_count.
  rewrite get_col_present by done. cbn [mbind result_bind].
  by apply stats_add_total.
Qed.

Lemma normalized_delay_cells X name ind :
  normalized_frame X →
  (name, ind) ∈ [("ARR_DELAY", "arr_delay_over_15");
                 ("DEP_DELAY", "dep_delay_over_15")] →
  has_col X name = true →
  has_col X ind = true
  ∧ Forall (λ row, ∃ x, cell name row = VFloat x) (df_rows X)
  ∧ Forall (λ row, ∃ n, cell ind row = VInt n) (df_rows X).
Proof.
  intros (_ & _ & Harr & Hdep & Hrows) Hin Hcol. split.
  - rewrite !elem_of_cons, elem_of_nil in Hin.
    destruct Hin as [[= -> ->]|[[= -> ->]|[]]]; eauto.
  - split; eapply Forall_impl; try exact Hrows;
      intros row (_ & Hdelay & _);
      destruct (Hdelay name ind Hin Hcol) as (x & n & ? & ?); eauto.
Qed.

Lemma normalized_flag_cells X name :
  normalized_frame X → name ∈ ["CANCELLED"; "DIVERTED"] →
  has_col X name = true →
  Forall (λ row, ∃ n, cell name row = VInt n) (df_rows X).
Proof.
  intros (_ & _ & _ & _ & Hrows) Hin Hcol.
  eapply Forall_impl; [exact Hrows|]. intros row (_ & _ & Hflag & _). eauto.
Qed.

Lemma normalized_cause_cells X name :
  normalized_frame X → name ∈ fst <$> DELAY_CAUSE_COLUMNS →
  has_col X name = true →
  Forall (λ row, ∃ x, cell name row = VFloat x) (df_rows X).
Proof.
  intros (_ & _ & _ & _ & Hrows) Hin Hcol.
  eapply Forall_impl; [exact Hrows|]. intros row (_ & _ & _ & Hcause). eauto.
Qed.

Lemma overall_delay_total col sum_field count_field over_field X overall :
  normalized_frame X → wf_stats overall →
  (col, over_field) ∈ [("ARR_DELAY", "arr_delay_over_15");
                       ("DEP_DELAY", "dep_delay_over_15")] →
  sum_field ∈ SUM_FIELDS → sum_field ∈ METRIC_FIELDS →
  count_field ∉ SUM_FIELDS → count_field ∈ METRIC_FIELDS →
  over_field ∉ SUM_FIELDS → over_field ∈ METRIC_FIELDS →
  ∃ overall', overall_delay col sum_field count_field over_field X overall
              = Ok overall'.
Proof.
  intros HX Hwf Hin Hsum Hsum' Hcount Hcount' Hover Hover'. unfold overall_delay.
  destruct (has_col X col) eqn:Hcol; [|eauto].
  destruct (normalized_delay_cells X col over_field HX Hin Hcol)
    as (Hind & Hfloats & Hints).
  destruct (overall_add_sum_total true sum_field col X overall) as [o1 H1];
    [done..|].
  rewrite H1. cbn [mbind result_bind].
  apply (overall_add_sum_wf true) in H1; [|done..].
  destruct (overall_add_count_total count_field col X o1) as [o2 H2]; [done..|].
  rewrite H2. cbn [mbind result_bind].
  apply overall_add_count_wf in H2; [|done..].
  rewrite Hind. by apply (overall_add_sum_total false).
Qed.

Lemma overall_flag_total col field X overall :
  normalized_frame X → wf_stats overall →
  col ∈ ["CANCELLED"; "DIVERTED"] → field ∈ METRIC_FIELDS →
  ∃ overall', overall_flag col field X overall = Ok overall'.
Proof.
  intros HX Hwf Hin Hfield. unfold overall_flag.
  destruct (has_col X col) eqn:Hcol; [|eauto].
  apply (overall_add_sum_total false); [done..|].
  by apply normalized_flag_cells.
Qed.

Lemma update_overall_total X overall :
  normalized_frame X → wf_stats overall →
  ∃ overall', update_overall overall X = Ok overall'.
Proof.
  intros HX Hwf. unfold update_overall.
  destruct (stats_add_total overall "flights"
              (NInt (Z.of_nat (length (df_rows X)))) Hwf) as [o1 H1];
    [field_class|].
  rewrite H1. cbn [mbind result_bind].
  eapply stats_add_wf in H1; [|done|apply typed_int; field_class].
  destruct (overall_delay_total "ARR_DELAY" "arr_delay_sum" "arr_delay_count"
              "arr_delay_over_15" X o1) as [o2 H2];
    [done|done|in_list|field_class..|].
  rewrite H2. cbn [mbind result_bind].
  apply overall_delay_wf in H2; [|done|field_class..].
  destruct (overall_delay_total "DEP_DELAY" "dep_delay_sum" "dep_delay_count"
              "dep_delay_over_15" X o2) as [o3 H3];
    [done|done|in_list|field_class..|].
  rewrite H3. cbn [mbind result_bind].
  apply overall_delay_wf in H3; [|done|field_class..].
  destruct (overall_flag_total "CANCELLED" "cancelled" X o3) as [o4 H4];
    [done|done|in_list|field_class|].
  rewrite H4. cbn [mbind result_bind].
  apply overall_flag_wf in H4; [|done|field_class].
  destruct (overall_flag_total "DIVERTED" "diverted" X o4) as [o5 H5];
    [done|done|in_list|field_class|].
  rewrite H5. cbn [mbind result_bind].
  apply overall_flag_wf in H5; [|done|field_class].
  destruct (for_each_total wf_stats
    (λ overall '(cause_col, field_name),
       if has_col X cause_col
       then overall_add_sum true field_name cause_col X overall
       else Ok overall) DELAY_CAUSE_COLUMNS o5) as (o6 & H6 & _); [|done|eauto].
  intros o [cause_col field_name] Hin Ho.
  destruct (has_col X cause_col) eqn:Hcol; [|eauto].
  assert (Hsums : Forall (λ cf, cf.2 ∈ SUM_FIELDS ∧ cf.2 ∈ METRIC_FIELDS)
                         DELAY_CAUSE_COLUMNS) by field_class.
  rewrite Forall_forall in Hsums. destruct (Hsums _ Hin) as [Hsum Hmetric].
  destruct (overall_add_sum_total true field_name cause_col X o) as [o' Ho'];
    [done..| |].
  { apply normalized_cause_cells; [done| |done].
    apply list_elem_of_fmap. exists (cause_col, field_name).
    split; [reflexivity|exact Hin]. }
  exists o'. split; [done|]. by apply (overall_add_sum_wf true) in Ho'.
Qed.

Lemma aggregate_floats col rows :
  Forall (λ row, ∃ x, cell col row = VFloat x) rows →
  ∃ v, aggregate AggSum col rows = Ok v.
Proof. intros Hrows. apply sum_from_floats. by apply Forall_fmap. Qed.

Lemma aggregate_ints col rows :
  Forall (λ row, ∃ n, cell col row = VInt n) rows →
  ∃ n, aggregate AggSum col rows = Ok (NInt n).
Proof. intros Hrows. apply sum_from_ints. by apply Forall_fmap. Qed.

(** Every aggregate the spec asks for is computed, and the merge takes it. *)
Lemma agg_entry_total X members name col func :
  normalized_frame X → Forall (normalized_row X) members →
  (name, (col, func)) ∈ build_agg_spec X →
  has_col X col = true
  ∧ ∃ v, aggregate func col members = Ok v ∧ mergeable name v.
Proof.
  intros (Hdate & _ & Harr & Hdep & _) Hrows.
  assert (Hdelay : ∀ name ind,
    (name, ind) ∈ [("ARR_DELAY", "arr_delay_over_15");
                   ("DEP_DELAY", "dep_delay_over_15")] →
    has_col X name = true →
    Forall (λ row, ∃ x, cell name row = VFloat x) members
    ∧ Forall (λ row, ∃ n, cell ind row = VInt n) members).
  { intros n i Hin Hcol. split; eapply Forall_impl; try exact Hrows;
      intros row (_ & Hd & _); destruct (Hd n i Hin Hcol) as (x & k & ? & ?); eauto. }
  assert (Hflag : ∀ name, name ∈ ["CANCELLED"; "DIVERTED"] →
    has_col X name = true →
    Forall (λ row, ∃ n, cell name row = VInt n) members).
  { intros n Hin Hcol. eapply Forall_impl; [exact Hrows|].
    intros row (_ & _ & Hf & _). eauto. }
  assert (Hcause : ∀ name, name ∈ fst <$> DELAY_CAUSE_COLUMNS →
    has_col X name = true →
    Forall (λ row, ∃ x, cell name row = VFloat x) members).
  { intros n Hin Hcol. eapply Forall_impl; [exact Hrows|].
    intros row (_ & _ & _ & Hc). eauto. }
  assert (Hsum : ∀ name col, name ∈ METRIC_FIELDS → name ∈ SUM_FIELDS →
    Forall (λ row, ∃ x, cell col row = VFloat x) members →
    ∃ v, aggregate AggSum col members = Ok v ∧ mergeable name v).
  { intros n c Hn Hs Hcells. destruct (aggregate_floats c members Hcells) as [v Hv].
    exists v. split; [done|]. split; [done|by left]. }
  assert (Hint : ∀ name col, name ∈ METRIC_FIELDS →
    Forall (λ row, ∃ n, cell col row = VInt n) members →
    ∃ v, aggregate AggSum col members = Ok v ∧ mergeable name v).
  { intros n c Hn Hcells. destruct (aggregate_ints c members Hcells) as [k Hk].
    exists (NInt k). split; [done|]. split; [done|right; eauto]. }
  assert (Hcount : ∀ name col, name ∈ METRIC_FIELDS →
    ∃ v, aggregate AggCount col members = Ok v ∧ mergeable name v).
  { intros n c Hn. eexists. split; [done|]. split; [done|right; eauto]. }
  unfold build_agg_spec. rewrite !elem_of_app.
  intros [Hin|[Hin|[Hin|[Hin|[Hin|Hin]]]]].
  - apply list_elem_of_singleton in Hin as [= -> -> ->]. split; [done|].
    eexists. split; [done|]. split; [field_class|right; eauto].
  - destruct (has_col X "ARR_DELAY") eqn:Hcol; [|by apply elem_of_nil in Hin].
    destruct (Hdelay "ARR_DELAY" "arr_delay_over_15") as [Hf Hi]; [in_list|done|].
    rewrite !elem_of_cons, elem_of_nil in Hin.
    destruct Hin as [[= -> -> ->]|[[= -> -> ->]|[[= -> -> ->]|[]]]].
    + split; [done|]. apply Hsum; [field_class..|done].
    + split; [done|]. apply Hcount. field_class.
    + split; [by apply Harr|]. apply Hint; [field_class|done].
  - destruct (has_col X "DEP_DELAY") eqn:Hcol; [|by apply elem_of_nil in Hin].
    destruct (Hdelay "DEP_DELAY" "dep_delay_over_15") as [Hf Hi]; [in_list|done|].
    rewrite !elem_of_cons, elem_of_nil in Hin.
    destruct Hin as [[= -> -> ->]|[[= -> -> ->]|[[= -> -> ->]|[]]]].
    + split; [done|]. apply Hsum; [field_class..|done].
    + split; [done|]. apply Hcount. field_class.
    + split; [by apply Hdep|]. apply Hint; [field_class|done].
  - destruct (has_col X "CANCELLED") eqn:Hcol; [|by apply elem_of_nil in Hin].
    apply list_elem_of_singleton in Hin as [= -> -> ->]. split; [done|].
    apply Hint; [field_class|]. apply Hflag; [in_list|done].
  - destruct (has_col X "DIVERTED") eqn:Hcol; [|by apply elem_of_nil in Hin].
    apply list_elem_of_singleton in Hin as [= -> -> ->]. split; [done|].
    apply Hint; [field_class|]. apply Hflag; [in_list|done].
  - apply cause_spec_elem in Hin as (c & f & Hin & Hcol & [= -> -> ->]).
    split; [done|].
    assert (Hsums : Forall (λ cf, cf.2 ∈ SUM_FIELDS ∧ cf.2 ∈ METRIC_FIELDS)
                           DELAY_CAUSE_COLUMNS) by field_class.
    rewrite Forall_forall in Hsums. destruct (Hsums _ Hin) as [Hs Hm].
    apply Hsum; [done..|]. apply Hcause; [|done].
    apply list_elem_of_fmap. exists (c, f). split; [reflexivity|exact Hin].
Qed.

(** The aggregates of one group: one value per name of the spec, each
    of them mergeable. *)
Lemma aggregate_group_total X (spec : list (string * (string * AggFunc)))
    members (acc : gmap string Num) :
  (∀ name col func, (name, (col, func)) ∈ spec →
     has_col X col = true
     ∧ ∃ v, aggregate func col members = Ok v ∧ mergeable name v) →
  (∀ name v, acc !! name = Some v → mergeable name v) →
  ∃ agg,
    for_each (λ acc '(name, (col, func)),
                if has_col X col then
                  v ← aggregate func col members; Ok (<[name := v]> acc)
                else Raise KeyError) spec acc = Ok agg
    ∧ (∀ name v, agg !! name = Some v → mergeable name v)
    ∧ (∀ name, name ∈ fst <$> spec → is_Some (agg !! name))
    ∧ (∀ name, is_Some (acc !! name) → is_Some (agg !! name)).
Proof.
  revert acc. induction spec as [|[name [col func]] spec IH]; intros acc Hspec Hacc.
  - exists acc. split; [done|]. split; [done|]. split; [|done].
    intros name Hin. by apply elem_of_nil in Hin.
  - cbn [for_each]. destruct (Hspec name col func) as (Hcol & v & Hv & Hm);
      [apply list_elem_of_here|].
    rewrite Hcol, Hv. cbn [mbind result_bind].
    destruct (IH (<[name := v]> acc)) as (agg & Hrun & Hall & Hnames & Hkeep).
    { intros n c f Hin. apply Hspec. by apply list_elem_of_further. }
    { intros n w. rewrite lookup_insert. case_decide as Hn.
      - subst n. by intros [= <-].
      - apply Hacc. }
    exists agg. split; [done|]. split; [done|]. split.
    + intros n Hin. rewrite fmap_cons in Hin.
      apply elem_of_cons in Hin as [->|Hin]; [|by apply Hnames].
      apply Hkeep. rewrite lookup_insert_eq. eauto.
    + intros n Hn. apply Hkeep. rewrite lookup_insert. case_decide; eauto.
Qed.

Lemma mergeable_row_ok (columns : list string) (agg : gmap string Num) :
  (∀ name v, agg !! name = Some v → mergeable name v) →
  (∀ name, name ∈ columns → is_Some (agg !! name)) →
  "flights" ∈ columns →
  row_ok columns agg.
Proof.
  intros Hall Hnames Hflights. split.
  - destruct (Hnames _ Hflights) as [v Hv].
    destruct (Hall _ _ Hv) as [_ [Hsum|[n ->]]].
    + by destruct (flights_not_sum).
    + exists (NInt n), n. done.
  - apply Forall_forall. intros field Hfield.
    destruct (Hnames _ Hfield) as [v Hv]. right. exists v. split; [done|].
    right. destruct (Hall _ _ Hv) as [Hmetric [Hsum|[n ->]]].
    + split; [done|by left].
    + split; [done|]. right. by exists n.
Qed.

Lemma groupby_agg_total X keys :
  normalized_frame X → forallb (has_col X) keys = true →
  ∃ grouped, groupby_agg X keys (build_agg_spec X) = Ok grouped
             ∧ grouped_ok grouped.
Proof.
  intros HX Hkeys. unfold groupby_agg. rewrite Hkeys.
  set (keyed := omap _ (df_rows X)).
  lazymatch goal with
  | |- ∃ _, map_result ?f ?xs ≫= _ = _ ∧ _ =>
      destruct (map_result_all
        (λ kr : list Value * gmap string Num,
           row_ok (fst <$> build_agg_spec X) kr.2) f xs)
        as (rows & Hrun & Hrows); [|rewrite Hrun]
  end.
  - intros key _. cbn zeta.
    set (members := snd <$> filter (λ kr, kr.1 = key) keyed).
    assert (Hmembers : Forall (normalized_row X) members).
    { destruct HX as (_ & _ & _ & _ & Hall). rewrite Forall_forall in Hall.
      apply Forall_forall. intros row Hrow. apply Hall.
      apply list_elem_of_fmap in Hrow as ([k r] & -> & Hin).
      apply list_elem_of_filter in Hin as [_ Hin].
      apply list_elem_of_omap in Hin as (row & Hrow & Hkey). simpl.
      destruct (group_key keys row); [|done]. by injection Hkey as _ <-. }
    destruct (aggregate_group_total X (build_agg_spec X) members ∅)
      as (agg & Hagg & Hall & Hnames & _).
    { intros name col func. by apply agg_entry_total. }
    { intros name v Hv. by rewrite lookup_empty in Hv. }
    unfold aggregate_group. rewrite Hagg. cbn [mbind result_bind].
    eexists. split; [done|]. cbn [snd]. apply mergeable_row_ok; [done..|].
    apply list_elem_of_fmap. exists ("flights", ("FL_DATE", AggSize)).
    split; [reflexivity|]. unfold build_agg_spec. rewrite !elem_of_app. left.
    apply list_elem_of_here.
  - cbn [mbind result_bind]. eexists. split; [done|]. by right.
Qed.

Lemma update_dimension_total X keys table :
  normalized_frame X → wf_table table →
  ∃ table', update_dimension X keys table = Ok table'.
Proof.
  intros HX Hwf. unfold update_dimension.
  destruct (forallb (has_col X) keys) eqn:Hkeys; [|eauto].
  destruct (groupby_agg_total X keys HX Hkeys) as (grouped & -> & Hok).
  cbn [mbind result_bind]. by apply update_table_ok.
Qed.

Section Totality.
Context `{Pandas}.

Lemma process_chunk_total st chunk out :
  wf_state st → preprocess_chunk chunk = Ok out →
  ∃ st', process_chunk st chunk = Ok st'.
Proof.
  intros (Hm & Hc & Ho & Hr & Hall) Hrun. unfold process_chunk. rewrite Hrun.
  cbn [mbind result_bind]. destruct (df_empty out); [eauto|].
  apply preprocess_normalized in Hrun as HX.
  destruct (update_overall_total out (overall_stats st) HX Hall) as [o ->].
  destruct (update_dimension_total out ["month"] _ HX Hm) as [t1 ->].
  destruct (update_dimension_total out ["OP_CARRIER"] _ HX Hc) as [t2 ->].
  destruct (update_dimension_total out ["ORIGIN"] _ HX Ho) as [t3 ->].
  destruct (update_dimension_total out ["ORIGIN"; "DEST"] _ HX Hr) as [t4 ->].
  cbn [mbind result_bind]. eauto.
Qed.

(** X4. Past the normaliser nothing raises. On accumulators that hold
    Metric Records, the step of the pipeline on a chunk raises exactly
    when the normalisation of the chunk raises, and then the same
    exception: the overall totals, the four aggregations and their merges
    all return on a normalised chunk. So a run raises only where the
    normalisation of one of its chunks does, and it returns when every
    chunk normalises. *)
Theorem aggregation_never_raises :
  (∀ st chunk e, wf_state st →
     process_chunk st chunk = Raise e ↔ preprocess_chunk chunk = Raise e)
  ∧ (∀ chunks e, process_chunks chunks = Raise e →
       ∃ chunk, chunk ∈ chunks ∧ preprocess_chunk chunk = Raise e)
  ∧ (∀ chunks, Forall (λ chunk, ∃ out, preprocess_chunk chunk = Ok out) chunks →
       ∃ st, process_chunks chunks = Ok st).
Proof.
  assert (Hstep : ∀ st chunk e, wf_state st →
    process_chunk st chunk = Raise e ↔ preprocess_chunk chunk = Raise e).
  { intros st chunk e Hwf.
    destruct (preprocess_chunk chunk) as [out|e'] eqn:Hrun.
    - destruct (process_chunk_total st chunk out Hwf Hrun) as [st' ->].
      split; discriminate.
    - unfold process_chunk. rewrite Hrun. cbn [mbind result_bind].
      split; intros [= <-]; reflexivity. }
  split; [exact Hstep|]. split.
  - intros chunks e. unfold process_chunks.
    generalize initial_state_wf. generalize initial_state.
    induction chunks as [|chunk chunks IH]; intros st Hwf; [done|].
    cbn [for_each]. destruct (process_chunk st chunk) as [st'|e'] eqn:Hrun.
    + cbn [mbind result_bind]. intros Hrest.
      destruct (IH st') as (c & Hin & Hc); [by eapply process_chunk_wf|done|].
      exists c. split; [by apply list_elem_of_further|done].
    + cbn [mbind result_bind]. intros [= <-]. exists chunk.
      split; [apply list_elem_of_here|]. by apply (Hstep st).
  - intros chunks Hall. unfold process_chunks.
    destruct (for_each_total wf_state process_chunk chunks initial_state)
      as (st & Hst & _); [|apply initial_state_wf|eauto].
    intros st chunk Hin Hwf. rewrite Forall_forall in Hall.
    destruct (Hall _ Hin) as [out Hout].
    destruct (process_chunk_total st chunk out Hwf Hout) as [st' Hst'].
    exists st'. split; [done|]. by eapply process_chunk_wf.
Qed.

End Totality.

(** ** No flight is lost or counted twice *)





















Section Conservation.
Context `{Pandas}.




End Conservation.

